(** * pyprob: the [Empirical] weighted sample collection

    A shallow embedding of [pyprob/distributions/empirical.py].

    The Python class keeps its state in attributes of the instance, in two
    Python lists ([_values], [_log_weights]) that may be shared between
    instances, and, in persistent mode, in a [shelve] file.  The embedding
    keeps all of it in one explicit store: a heap of instances, a heap of
    value lists, a heap of log-weight lists and a file system of shelf
    files.  Methods are computations in a state-and-exception monad; an
    exception keeps the store as the method left it, as in Python. *)

From Stdlib Require Import ZArith QArith String List Lia Bool.
From Stdlib Require Import Floats.SpecFloat.
From stdpp Require Import base option list gmap strings.

Local Open Scope string_scope.
Local Open Scope list_scope.
Local Open Scope Z_scope.

(** ** Tensors

    A log-weight is a zero-dimensional floating-point tensor.  It is
    modelled as an IEEE 754 datum ([spec_float]: signed zeros, signed
    infinities, NaN, finite numbers); [torch.eq] is IEEE equality. *)

Abbreviation tensor := spec_float.

Definition torch_eq (a b : tensor) : bool := SFeqb a b.

(** [util.to_tensor(0.)] *)
Definition tensor_zero : tensor := S754_zero false.

(** The two data on which IEEE equality and identity disagree: a zero
    equals the zero of the other sign, and NaN equals nothing. *)
Definition is_zero (w : tensor) : bool :=
  match w with S754_zero _ => true | _ => false end.
Definition is_nan (w : tensor) : bool :=
  match w with S754_nan => true | _ => false end.

(** ** Exceptions *)

Inductive exn : Type :=
| RuntimeError (msg : string)
| TypeError (msg : string)
| ValueError (msg : string)
| AttributeError (attr : string)
| NotImplementedError
| IndexError
| KeyError
| ZeroDivisionError
| RecursionError.

Definition msg_not_finalized : string :=
  "Empirical not finalized. Call finalize first.".
Definition msg_min_max : string :=
  "Cannot compute the minimum and maximum of values in this Empirical. Make sure the distribution is over values that are scalar or castable to scalar, e.g., a PyTorch tensor of one element.".
Definition msg_mode_mismatch : string :=
  "Expecting all Empirical distributions to be on disk or in memory.".
Definition msg_not_empirical : string :=
  "Combination is only supported between Empirical distributions.".
Definition msg_no_target : string :=
  "Expecting a target file_name for the combined Empirical.".
Definition msg_unequal_length : string :=
  "Combination is only supported between Empirical distributions of equal length.".
(** raised by [shelve] for any access to a closed shelf *)
Definition msg_closed_shelf : string := "invalid operation on closed shelf".
(** raised by [random.randint] on an empty range *)
Definition msg_empty_range : string := "empty range for randrange()".

(** The error kinds of the specification (section 7), and the kind each
    exception of the code belongs to, by the place that raises it. *)
Inductive error_kind : Type :=
| NotFinalized
| IndexOutOfRange
| TypeMismatch
| LengthMismatch
| UnsupportedOnPersistent
| NotScalar
| NotHashable
| EmptyDistribution.

Definition kind_of (e : exn) : option error_kind :=
  match e with
  | RuntimeError m =>
      if String.eqb m msg_not_finalized then Some NotFinalized
      else if String.eqb m msg_min_max then Some NotScalar
      else if String.eqb m msg_mode_mismatch then Some TypeMismatch
      else if String.eqb m msg_unequal_length then Some LengthMismatch
      else None
  | TypeError m =>
      if String.eqb m msg_not_empirical then Some TypeMismatch else None
  | NotImplementedError => Some UnsupportedOnPersistent
  | IndexError | KeyError => Some IndexOutOfRange
  | _ => None
  end.

(** ** The state-and-exception monad *)

Inductive outcome (A : Type) : Type :=
| Ret (a : A)
| Raise (e : exn).
Arguments Ret {A} a.
Arguments Raise {A} e.

Section Monad.
Context {S : Type}.

Definition M (A : Type) : Type := S -> outcome A * S.

Definition ret {A} (a : A) : M A := fun s => (Ret a, s).
Definition raise {A} (e : exn) : M A := fun s => (Raise e, s).
Definition bind {A B} (m : M A) (k : A -> M B) : M B :=
  fun s => match m s with
           | (Ret a, s') => k a s'
           | (Raise e, s') => (Raise e, s')
           end.
(** [try: m except: h] with a bare [except] *)
Definition try_except {A} (m : M A) (h : M A) : M A :=
  fun s => match m s with
           | (Ret a, s') => (Ret a, s')
           | (Raise _, s') => h s'
           end.
Definition gets {A} (f : S -> A) : M A := fun s => (Ret (f s), s).
Definition modify (f : S -> S) : M unit := fun s => (Ret tt, f s).
End Monad.
Arguments M S A : clear implicits.

Declare Scope py_scope.
Delimit Scope py_scope with py.
Notation "'do' x <- m ; k" := (bind m (fun x => k))
  (at level 10, x name, m at level 100, k at level 200,
   format "'[v' 'do'  x  <-  m ; '/' k ']'") : py_scope.
Notation "m ;; k" := (bind m (fun _ => k))
  (at level 100, k at level 200, right associativity) : py_scope.
Local Open Scope py_scope.

(** ** The store *)

(** References into the three heaps. *)
Abbreviation ref := nat (only parsing).

(** What the code takes from [torch], from [Categorical] and from Python's
    numeric coercions and random number generator.  None of them is part of
    [empirical.py]; the embedding is parametric in them. *)
Class Numerics (V : Type) : Type := {
  (** [torch.log] *)
  torch_log : tensor -> tensor;
  (** [Categorical.probs]: the soft-max of the logits, as exact rationals *)
  categorical_probs : list tensor -> list Q;
  (** the index returned by [util.to_tensor(log_weights).max(-1)] *)
  torch_argmax : list tensor -> nat;
  (** [float(value)], which fails on values that are not scalars *)
  python_float : V -> option Q;
  (** [util.to_tensor(value, dtype=torch.float64)] *)
  to_number : V -> Q;
  (** the stream of random draws behind [random.randint] and
      [Categorical.sample] *)
  random_stream : nat -> nat
}.

(** A [shelve.Shelf] handle: the file it was opened on, and whether
    [close()] was called on it. *)
Record Shelf : Type := mkShelf {
  shelf_file : string;
  shelf_closed : bool
}.

(** [Categorical(logits = ...)]. *)
Record Categorical : Type := mkCategorical {
  logits : list tensor
}.

Section Store.
Context {V : Type}.

(** The content of a shelf file.  The reserved keys ["name"],
    ["log_weights"] and ["last_key"] are fields; the keys [str(i)] are the
    map [db_items], keyed by [i] ([str] is injective on integers).
    [db_syncs] counts the calls of [sync()] on the file: it is not data of
    the file but a trace of the code's effects.

    The shelf is opened with [writeback=True]: an assignment writes the
    pickled entry at once and also caches the object, and [sync()] writes
    the cached objects again.  The only cached mutable object is the
    [_log_weights] list, and every [sync()] of the code directly follows
    an assignment of that list, so the file content is the same as with
    direct writes, which is what the model does. *)
Record shelf_db : Type := mkDb {
  db_name : option string;
  db_log_weights : option (list tensor);
  db_last_key : option Z;
  db_items : gmap Z V;
  db_syncs : nat
}.

Definition empty_db : shelf_db := mkDb None None None ∅ 0.

(** An instance of [Empirical]: its attributes.  [_values] and
    [_log_weights] are references to Python lists.  The attributes of the
    persistent mode do not exist on an in-memory instance: [_shelf] is
    then [None] and the three counters are not looked at. *)
Record Empirical : Type := mkEmpirical {
  _finalized : bool;
  _closed : bool;
  _categorical : option Categorical;
  _log_weights : ref;
  _length : nat;
  _on_disk : bool;
  _values : option ref;
  _file_name : option string;
  _shelf : option Shelf;
  _file_last_key : Z;
  _file_sync_timeout : Z;
  _file_sync_countdown : Z;
  _mean : option Q;
  _variance : option Q;
  _mode : option V;
  _min : option Q;
  _max : option Q;
  _effective_sample_size : option Q;
  _uniform_weights : bool;
  name : string
}.

Record store : Type := mkStore {
  objects : list Empirical;
  value_lists : list (list V);
  weight_lists : list (list tensor);
  disk : gmap string shelf_db;
  draws : nat
}.

Definition empty_store : store := mkStore [] [] [] ∅ 0.

(** *** Attribute assignment *)

Definition set_finalized (b : bool) (e : Empirical) : Empirical :=
  mkEmpirical b (_closed e) (_categorical e) (_log_weights e) (_length e)
    (_on_disk e) (_values e) (_file_name e) (_shelf e) (_file_last_key e)
    (_file_sync_timeout e) (_file_sync_countdown e) (_mean e) (_variance e)
    (_mode e) (_min e) (_max e) (_effective_sample_size e)
    (_uniform_weights e) (name e).

Definition set_closed (b : bool) (e : Empirical) : Empirical :=
  mkEmpirical (_finalized e) b (_categorical e) (_log_weights e) (_length e)
    (_on_disk e) (_values e) (_file_name e) (_shelf e) (_file_last_key e)
    (_file_sync_timeout e) (_file_sync_countdown e) (_mean e) (_variance e)
    (_mode e) (_min e) (_max e) (_effective_sample_size e)
    (_uniform_weights e) (name e).

Definition set_categorical (c : option Categorical) (e : Empirical) : Empirical :=
  mkEmpirical (_finalized e) (_closed e) c (_log_weights e) (_length e)
    (_on_disk e) (_values e) (_file_name e) (_shelf e) (_file_last_key e)
    (_file_sync_timeout e) (_file_sync_countdown e) (_mean e) (_variance e)
    (_mode e) (_min e) (_max e) (_effective_sample_size e)
    (_uniform_weights e) (name e).

Definition set_length (n : nat) (e : Empirical) : Empirical :=
  mkEmpirical (_finalized e) (_closed e) (_categorical e) (_log_weights e) n
    (_on_disk e) (_values e) (_file_name e) (_shelf e) (_file_last_key e)
    (_file_sync_timeout e) (_file_sync_countdown e) (_mean e) (_variance e)
    (_mode e) (_min e) (_max e) (_effective_sample_size e)
    (_uniform_weights e) (name e).

Definition set_shelf (h : option Shelf) (e : Empirical) : Empirical :=
  mkEmpirical (_finalized e) (_closed e) (_categorical e) (_log_weights e)
    (_length e) (_on_disk e) (_values e) (_file_name e) h (_file_last_key e)
    (_file_sync_timeout e) (_file_sync_countdown e) (_mean e) (_variance e)
    (_mode e) (_min e) (_max e) (_effective_sample_size e)
    (_uniform_weights e) (name e).

Definition set_file_last_key (k : Z) (e : Empirical) : Empirical :=
  mkEmpirical (_finalized e) (_closed e) (_categorical e) (_log_weights e)
    (_length e) (_on_disk e) (_values e) (_file_name e) (_shelf e) k
    (_file_sync_timeout e) (_file_sync_countdown e) (_mean e) (_variance e)
    (_mode e) (_min e) (_max e) (_effective_sample_size e)
    (_uniform_weights e) (name e).

Definition set_file_sync_countdown (c : Z) (e : Empirical) : Empirical :=
  mkEmpirical (_finalized e) (_closed e) (_categorical e) (_log_weights e)
    (_length e) (_on_disk e) (_values e) (_file_name e) (_shelf e)
    (_file_last_key e) (_file_sync_timeout e) c (_mean e) (_variance e)
    (_mode e) (_min e) (_max e) (_effective_sample_size e)
    (_uniform_weights e) (name e).

Definition set_mean (x : option Q) (e : Empirical) : Empirical :=
  mkEmpirical (_finalized e) (_closed e) (_categorical e) (_log_weights e)
    (_length e) (_on_disk e) (_values e) (_file_name e) (_shelf e)
    (_file_last_key e) (_file_sync_timeout e) (_file_sync_countdown e) x
    (_variance e) (_mode e) (_min e) (_max e) (_effective_sample_size e)
    (_uniform_weights e) (name e).

Definition set_variance (x : option Q) (e : Empirical) : Empirical :=
  mkEmpirical (_finalized e) (_closed e) (_categorical e) (_log_weights e)
    (_length e) (_on_disk e) (_values e) (_file_name e) (_shelf e)
    (_file_last_key e) (_file_sync_timeout e) (_file_sync_countdown e)
    (_mean e) x (_mode e) (_min e) (_max e) (_effective_sample_size e)
    (_uniform_weights e) (name e).

Definition set_mode (x : option V) (e : Empirical) : Empirical :=
  mkEmpirical (_finalized e) (_closed e) (_categorical e) (_log_weights e)
    (_length e) (_on_disk e) (_values e) (_file_name e) (_shelf e)
    (_file_last_key e) (_file_sync_timeout e) (_file_sync_countdown e)
    (_mean e) (_variance e) x (_min e) (_max e) (_effective_sample_size e)
    (_uniform_weights e) (name e).

Definition set_min (x : option Q) (e : Empirical) : Empirical :=
  mkEmpirical (_finalized e) (_closed e) (_categorical e) (_log_weights e)
    (_length e) (_on_disk e) (_values e) (_file_name e) (_shelf e)
    (_file_last_key e) (_file_sync_timeout e) (_file_sync_countdown e)
    (_mean e) (_variance e) (_mode e) x (_max e) (_effective_sample_size e)
    (_uniform_weights e) (name e).

Definition set_max (x : option Q) (e : Empirical) : Empirical :=
  mkEmpirical (_finalized e) (_closed e) (_categorical e) (_log_weights e)
    (_length e) (_on_disk e) (_values e) (_file_name e) (_shelf e)
    (_file_last_key e) (_file_sync_timeout e) (_file_sync_countdown e)
    (_mean e) (_variance e) (_mode e) (_min e) x (_effective_sample_size e)
    (_uniform_weights e) (name e).

Definition set_effective_sample_size (x : option Q) (e : Empirical) : Empirical :=
  mkEmpirical (_finalized e) (_closed e) (_categorical e) (_log_weights e)
    (_length e) (_on_disk e) (_values e) (_file_name e) (_shelf e)
    (_file_last_key e) (_file_sync_timeout e) (_file_sync_countdown e)
    (_mean e) (_variance e) (_mode e) (_min e) (_max e) x
    (_uniform_weights e) (name e).

Definition set_uniform_weights (b : bool) (e : Empirical) : Empirical :=
  mkEmpirical (_finalized e) (_closed e) (_categorical e) (_log_weights e)
    (_length e) (_on_disk e) (_values e) (_file_name e) (_shelf e)
    (_file_last_key e) (_file_sync_timeout e) (_file_sync_countdown e)
    (_mean e) (_variance e) (_mode e) (_min e) (_max e)
    (_effective_sample_size e) b (name e).

Definition set_objects (o : list Empirical) (s : store) : store :=
  mkStore o (value_lists s) (weight_lists s) (disk s) (draws s).
Definition set_value_lists (l : list (list V)) (s : store) : store :=
  mkStore (objects s) l (weight_lists s) (disk s) (draws s).
Definition set_weight_lists (l : list (list tensor)) (s : store) : store :=
  mkStore (objects s) (value_lists s) l (disk s) (draws s).
Definition set_disk (d : gmap string shelf_db) (s : store) : store :=
  mkStore (objects s) (value_lists s) (weight_lists s) d (draws s).
Definition set_draws (n : nat) (s : store) : store :=
  mkStore (objects s) (value_lists s) (weight_lists s) (disk s) n.

End Store.

(** ** Heap and shelf primitives *)

Section Primitives.
Context {V : Type}.

Local Abbreviation st := (@store V).
Local Abbreviation Emp := (@Empirical V).

(** [self.attr]: the instance behind a reference. *)
Definition get_self (self : ref) : M st Emp :=
  fun s => match objects s !! self with
           | Some e => (Ret e, s)
           | None => (Raise (AttributeError "self"), s)
           end.

(** [self.attr = ...] *)
Definition update_self (self : ref) (f : Emp -> Emp) : M st unit :=
  modify (fun s => set_objects (alter f self (objects s)) s).

(** A new instance; its reference is returned. *)
Definition new_object (e : Emp) : M st ref :=
  fun s => (Ret (length (objects s)), set_objects (objects s ++ [e]) s).

(** [[]]: a new, empty Python list of values. *)
Definition new_value_list : M st ref :=
  fun s => (Ret (length (value_lists s)),
            set_value_lists (value_lists s ++ [[]]) s).

(** A new Python list of log-weights with the given content. *)
Definition new_weight_list (ws : list tensor) : M st ref :=
  fun s => (Ret (length (weight_lists s)),
            set_weight_lists (weight_lists s ++ [ws]) s).

Definition read_value_list (l : ref) : M st (list V) :=
  fun s => match value_lists s !! l with
           | Some vs => (Ret vs, s)
           | None => (Raise (AttributeError "_values"), s)
           end.

Definition read_weight_list (l : ref) : M st (list tensor) :=
  fun s => match weight_lists s !! l with
           | Some ws => (Ret ws, s)
           | None => (Raise (AttributeError "_log_weights"), s)
           end.

(** [l.append(v)] on the list object behind [l]: every holder of the
    reference sees the new element. *)
Definition append_value (l : ref) (v : V) : M st unit :=
  modify (fun s => set_value_lists (alter (fun vs => vs ++ [v]) l (value_lists s)) s).

Definition append_weight (l : ref) (w : tensor) : M st unit :=
  modify (fun s => set_weight_lists (alter (fun ws => ws ++ [w]) l (weight_lists s)) s).

(** [self._values] of an instance that may not have the attribute. *)
Definition values_attr (e : Emp) : M st ref :=
  match _values e with
  | Some l => ret l
  | None => raise (AttributeError "_values")
  end.

(** [self._shelf], with the same proviso. *)
Definition shelf_attr (e : Emp) : M st Shelf :=
  match _shelf e with
  | Some h => ret h
  | None => raise (AttributeError "_shelf")
  end.

(** [shelve.open(file_name, writeback=True)]: creates the file when it does
    not exist. *)
Definition shelve_open (file_name : string) : M st Shelf :=
  fun s => (Ret (mkShelf file_name false),
            match disk s !! file_name with
            | Some _ => s
            | None => set_disk (<[file_name := empty_db]> (disk s)) s
            end).

(** The file behind an open shelf; any access to a closed shelf raises
    [ValueError]. *)
Definition shelf_db_of (h : Shelf) : M st shelf_db :=
  fun s => if shelf_closed h then (Raise (ValueError msg_closed_shelf), s)
           else match disk s !! shelf_file h with
                | Some db => (Ret db, s)
                | None => (Raise KeyError, s)
                end.

Definition shelf_write (h : Shelf) (f : shelf_db -> shelf_db) : M st unit :=
  do db <- shelf_db_of h;
  modify (fun s => set_disk (<[shelf_file h := f db]> (disk s)) s).

(** [shelf['name'] = n], [shelf['log_weights'] = ws],
    [shelf['last_key'] = k], [shelf[str(i)] = v] *)
Definition shelf_set_name (h : Shelf) (n : string) : M st unit :=
  shelf_write h (fun db => mkDb (Some n) (db_log_weights db) (db_last_key db)
                             (db_items db) (db_syncs db)).
Definition shelf_set_log_weights (h : Shelf) (ws : list tensor) : M st unit :=
  shelf_write h (fun db => mkDb (db_name db) (Some ws) (db_last_key db)
                             (db_items db) (db_syncs db)).
Definition shelf_set_last_key (h : Shelf) (k : Z) : M st unit :=
  shelf_write h (fun db => mkDb (db_name db) (db_log_weights db) (Some k)
                             (db_items db) (db_syncs db)).
Definition shelf_set_item (h : Shelf) (i : Z) (v : V) : M st unit :=
  shelf_write h (fun db => mkDb (db_name db) (db_log_weights db) (db_last_key db)
                             (<[i := v]> (db_items db)) (db_syncs db)).

(** [shelf[str(i)]] *)
Definition shelf_get_item (h : Shelf) (i : Z) : M st V :=
  do db <- shelf_db_of h;
  match db_items db !! i with
  | Some v => ret v
  | None => raise KeyError
  end.

(** [shelf.sync()].  On a closed shelf it finds nothing to write and no
    file to flush. *)
Definition shelf_sync (h : Shelf) : M st unit :=
  if shelf_closed h then ret tt
  else shelf_write h (fun db => mkDb (db_name db) (db_log_weights db)
                                  (db_last_key db) (db_items db) (S (db_syncs db))).

(** [shelf.close()]: a last [sync()], then the handle is closed.  The
    closed handle is returned; the caller stores it back in [_shelf]. *)
Definition shelf_close (h : Shelf) : M st Shelf :=
  if shelf_closed h then ret h
  else shelf_sync h ;; ret (mkShelf (shelf_file h) true).

(** [range(n)] as a list. *)
Definition range (n : nat) : list nat := seq 0 n.

(** [for x in xs: body(x)] *)
Fixpoint for_each {A} (xs : list A) (body : A -> M st unit) : M st unit :=
  match xs with
  | [] => ret tt
  | x :: rest => body x ;; for_each rest body
  end.

(** [[f(x) for x in xs]] *)
Fixpoint comprehension {A B} (xs : list A) (f : A -> M st B) : M st (list B) :=
  match xs with
  | [] => ret []
  | x :: rest => do y <- f x; do ys <- comprehension rest f; ret (y :: ys)
  end.

(** [xs[i]] on a Python sequence given by value, [i] not negative. *)
Definition index {A} (xs : list A) (i : nat) : M st A :=
  match xs !! i with
  | Some x => ret x
  | None => raise IndexError
  end.

End Primitives.

(** Modelled from the spec: the class [Categorical] is imported from the
    package ([from . import Distribution, Categorical]) and its source is
    not at hand.  The specification gives its [logits] as a copy of the
    log-weights it is built from (section 3, CategoricalWeighting). *)
Definition Categorical_of_logits (log_weights : list tensor) : Categorical :=
  mkCategorical log_weights.

(** Any Python object that may reach [Empirical.combine]: an instance of
    [Empirical], or something else, which may or may not have an attribute
    called [_on_disk]. *)
Inductive pyobj : Type :=
| PyEmpirical (r : ref)
| PyOther (on_disk_attr : option bool).

Definition isinstance_Empirical (o : pyobj) : bool :=
  match o with
  | PyEmpirical _ => true
  | PyOther _ => false
  end.

(** [sorted(xs)] on numbers, by insertion. *)
Fixpoint insert_sorted (x : Q) (xs : list Q) : list Q :=
  match xs with
  | [] => [x]
  | y :: rest => if Qle_bool x y then x :: y :: rest else y :: insert_sorted x rest
  end.

Definition sorted (xs : list Q) : list Q := foldr insert_sorted [] xs.

(** [sum(xs)] *)
Definition sum (xs : list Q) : Q := foldl Qplus (0 # 1)%Q xs.

(** ** The methods of [Empirical] *)

Module Empirical.
Section Methods.
Context {V : Type} `{Numerics V}.

Local Abbreviation st := (@store V).
Local Abbreviation Emp := (@Empirical V).

(** [xs[i]] with Python's negative indices. *)
Definition getitem {A} (xs : list A) (i : Z) : M st A :=
  let n := Z.of_nat (length xs) in
  if (0 <=? i) && (i <? n) then index xs (Z.to_nat i)
  else if (- n <=? i) && (i <? 0) then index xs (Z.to_nat (n + i))
  else raise IndexError.

Definition categorical_attr (e : Emp) : M st Categorical :=
  match _categorical e with
  | Some c => ret c
  | None => raise (AttributeError "logits")
  end.

Definition next_draw : M st nat :=
  fun s => (Ret (random_stream (draws s)), set_draws (S (draws s)) s).

(** [random.randint(a, b)]: some integer of [a..b]. *)
Definition random_randint (a b : Z) : M st Z :=
  if b <? a then raise (ValueError msg_empty_range)
  else do r <- next_draw; ret (a + Z.of_nat r mod (b - a + 1)).

(** [int(categorical.sample())]: some index of the logits. *)
Definition categorical_sample (c : Categorical) : M st Z :=
  do r <- next_draw; ret (Z.of_nat r mod Z.of_nat (length (logits c))).

Definition __len__ (self : ref) : M st nat :=
  do e <- get_self self; ret (_length e).

(** [finalize].  [logits[0]] fails on an empty sequence, after
    [_categorical] was assigned. *)
Definition finalize (self : ref) : M st unit :=
  do e <- get_self self;
  do log_weights <- read_weight_list (_log_weights e);
  update_self self (set_categorical (Some (Categorical_of_logits log_weights))) ;;
  let c := Categorical_of_logits log_weights in
  do first <- index (logits c) 0;
  update_self self
    (set_uniform_weights (forallb (fun w => torch_eq w first) (logits c))) ;;
  update_self self (set_length (length log_weights)) ;;
  (if _on_disk e then
     do h <- shelf_attr e;
     shelf_set_name h (name e) ;;
     shelf_set_log_weights h log_weights ;;
     shelf_set_last_key h (_file_last_key e) ;;
     shelf_sync h
   else ret tt) ;;
  update_self self (set_finalized true).

Definition _check_finalized (self : ref) : M st unit :=
  do e <- get_self self;
  if _finalized e then ret tt else raise (RuntimeError msg_not_finalized).

Definition clear_statistics (e : Emp) : Emp :=
  set_effective_sample_size None
    (set_max None (set_min None (set_mode None
      (set_variance None (set_mean None e))))).

Definition add (self : ref) (value : V) (log_weight weight : option tensor)
  : M st unit :=
  update_self self (set_finalized false) ;;
  update_self self clear_statistics ;;
  do e <- get_self self;
  append_weight (_log_weights e)
    (match log_weight, weight with
     | Some lw, _ => lw
     | None, Some w => torch_log w
     | None, None => tensor_zero
     end) ;;
  if _on_disk e then
    update_self self (set_file_last_key (_file_last_key e + 1)) ;;
    do h <- shelf_attr e;
    shelf_set_item h (_file_last_key e + 1) value ;;
    update_self self (set_file_sync_countdown (_file_sync_countdown e - 1)) ;;
    if _file_sync_countdown e - 1 =? 0 then
      finalize self ;;
      update_self self (set_file_sync_countdown (_file_sync_timeout e))
    else ret tt
  else
    do l <- values_attr e;
    append_value l value.

Definition add_sequence (self : ref) (values : list V)
  (log_weights weights : option (list tensor)) : M st unit :=
  match log_weights, weights with
  | Some lws, _ =>
      for_each (range (length values)) (fun i =>
        do v <- index values i;
        do lw <- index lws i;
        add self v (Some lw) None)
  | None, Some ws =>
      for_each (range (length values)) (fun i =>
        do v <- index values i;
        do w <- index ws i;
        add self v None (Some w))
  | None, None =>
      for_each (range (length values)) (fun i =>
        do v <- index values i;
        add self v None None)
  end.

(** The end of [__init__]: an initial batch is added and finalized. *)
Definition init_batch (self : ref) (values : option (list V))
  (log_weights weights : option (list tensor)) : M st ref :=
  match values with
  | Some vs =>
      if (0 <? length vs)%nat then
        add_sequence self vs log_weights weights ;;
        finalize self ;;
        ret self
      else ret self
  | None => ret self
  end.

(** [Empirical(values, log_weights, weights, file_name, file_sync_timeout,
    name)].  The list arguments are read only, and never the lists of the
    new instance: they are passed by value. *)
Definition __init__ (values : option (list V))
  (log_weights weights : option (list tensor)) (file_name : option string)
  (file_sync_timeout : Z) (name : string) : M st ref :=
  do lw <- new_weight_list [];
  match file_name with
  | None =>
      do vl <- new_value_list;
      do self <- new_object
        (mkEmpirical false false None lw 0 false (Some vl) None None 0 0 0
           None None None None None None false name);
      init_batch self values log_weights weights
  | Some f =>
      do h <- shelve_open f;
      do db <- shelf_db_of h;
      match db_log_weights db with
      | Some stored =>
          let name := match db_name db with Some n => n | None => name end in
          do lw' <- new_weight_list stored;
          match db_last_key db with
          | Some k =>
              do self <- new_object
                (mkEmpirical false false None lw' (length stored) true None
                   (Some f) (Some h) k file_sync_timeout file_sync_timeout
                   None None None None None None false name);
              init_batch self values log_weights weights
          | None => raise KeyError
          end
      | None =>
          do self <- new_object
            (mkEmpirical false false None lw 0 true None (Some f) (Some h)
               (-1) file_sync_timeout file_sync_timeout
               None None None None None None false name);
          init_batch self values log_weights weights
      end
  end.

(** Defaults of the keyword arguments of [__init__]. *)
Definition default_timeout : Z := 1000.
Definition default_name : string := "Empirical".

Definition close (self : ref) : M st unit :=
  do e <- get_self self;
  if _on_disk e then
    finalize self ;;
    do e <- get_self self;
    if negb (_closed e) then
      do h <- shelf_attr e;
      do h' <- shelf_close h;
      update_self self (set_shelf (Some h')) ;;
      update_self self (set_closed true)
    else ret tt
  else ret tt.

Definition _get_value (self : ref) (i : Z) : M st V :=
  do e <- get_self self;
  if _on_disk e then
    if i <? 0 then
      (* [self._get_value(self._length + index)], again while the index is
         negative: without end when the length is zero *)
      if (_length e =? 0)%nat then raise RecursionError
      else do h <- shelf_attr e; shelf_get_item h (i mod Z.of_nat (_length e))
    else do h <- shelf_attr e; shelf_get_item h i
  else
    do l <- values_attr e;
    do vs <- read_value_list l;
    getitem vs i.

Definition _get_log_weight (self : ref) (i : Z) : M st tensor :=
  do e <- get_self self;
  do c <- categorical_attr e;
  getitem (logits c) i.

Definition get_values (self : ref) : M st (list V) :=
  _check_finalized self ;;
  do e <- get_self self;
  if _on_disk e then
    do h <- shelf_attr e;
    comprehension (range (_length e)) (fun i => shelf_get_item h (Z.of_nat i))
  else
    do l <- values_attr e;
    read_value_list l.


(** [copy(file_name)].  [copy.copy(self)] is a shallow copy: a new instance
    with the attribute values of [self], list references included. *)
Definition copy (self : ref) (file_name : option string) : M st ref :=
  _check_finalized self ;;
  do e <- get_self self;
  if _on_disk e then
    match file_name with
    | None =>
        do values <- get_values self;
        do log_weights <- read_weight_list (_log_weights e);
        __init__ (Some values) (Some log_weights) None None
          default_timeout default_name
    | Some f =>
        do r <- __init__ None None None (Some f) default_timeout default_name;
        for_each (range (_length e)) (fun i =>
          do h <- shelf_attr e;
          do v <- shelf_get_item h (Z.of_nat i);
          do log_weights <- read_weight_list (_log_weights e);
          do lw <- index log_weights i;
          add r v (Some lw) None) ;;
        finalize r ;;
        ret r
    end
  else
    match file_name with
    | None => new_object e
    | Some f =>
        do l <- values_attr e;
        do values <- read_value_list l;
        do log_weights <- read_weight_list (_log_weights e);
        __init__ (Some values) (Some log_weights) None (Some f)
          default_timeout default_name
    end.

Definition sample (self : ref) (min_index max_index : option Z) : M st V :=
  _check_finalized self ;;
  do e <- get_self self;
  do i <-
    (if _uniform_weights e then
       random_randint (default 0 min_index)
         (default (Z.of_nat (_length e) - 1) max_index)
     else
       match min_index, max_index with
       | None, None => do c <- categorical_attr e; categorical_sample c
       | _, _ => raise NotImplementedError
       end);
  _get_value self i.

(** [ret += term(i)] for [i] in [indices] *)
Fixpoint accumulate (indices : list nat) (term : nat -> M st Q) (acc : Q) : M st Q :=
  match indices with
  | [] => ret acc
  | i :: rest => do t <- term i; accumulate rest term (acc + t)%Q
  end.

(** [expectation(func)], in exact arithmetic. *)
Definition expectation (self : ref) (func : V -> Q) : M st Q :=
  _check_finalized self ;;
  do e <- get_self self;
  if _on_disk e then
    accumulate (range (_length e)) (fun i =>
      do h <- shelf_attr e;
      do v <- shelf_get_item h (Z.of_nat i);
      do c <- categorical_attr e;
      do p <- index (categorical_probs (logits c)) i;
      ret (func v * p)%Q) (0 # 1)%Q
  else if _uniform_weights e then
    do l <- values_attr e;
    do vs <- read_value_list l;
    if (_length e =? 0)%nat then raise ZeroDivisionError
    else ret (sum (List.map func vs) / inject_Z (Z.of_nat (_length e)))%Q
  else
    accumulate (range (_length e)) (fun i =>
      do l <- values_attr e;
      do vs <- read_value_list l;
      do v <- index vs i;
      do c <- categorical_attr e;
      do p <- index (categorical_probs (logits c)) i;
      ret (func v * p)%Q) (0 # 1)%Q.

(** The loop of [filter]. *)
Fixpoint filter_loop (self : ref) (func : V -> bool) (indices : list nat)
  (filtered_values : list V) (filtered_log_weights : list tensor)
  : M st (list V * list tensor) :=
  match indices with
  | [] => ret (filtered_values, filtered_log_weights)
  | i :: rest =>
      do value <- _get_value self (Z.of_nat i);
      if func value then
        do lw <- _get_log_weight self (Z.of_nat i);
        filter_loop self func rest (filtered_values ++ [value])
          (filtered_log_weights ++ [lw])
      else filter_loop self func rest filtered_values filtered_log_weights
  end.

(** [filter(func)], called without further arguments for the new
    instance. *)
Definition filter (self : ref) (func : V -> bool) : M st ref :=
  _check_finalized self ;;
  do e <- get_self self;
  if (_length e =? 0)%nat then ret self
  else
    do kept <- filter_loop self func (range (_length e)) [] [];
    __init__ (Some (fst kept)) (Some (snd kept)) None None
      default_timeout default_name.

(** [resample(num_samples, map_func)], called without further arguments
    for the new instance. *)
Definition resample (self : ref) (num_samples : nat) (map_func : option (V -> V))
  : M st ref :=
  _check_finalized self ;;
  let map_func := default (fun x => x) map_func in
  do values <- comprehension (range num_samples) (fun _ =>
                 do v <- sample self None None; ret (map_func v));
  __init__ (Some values) None None None default_timeout default_name.

Definition mean (self : ref) : M st Q :=
  do e <- get_self self;
  match _mean e with
  | None =>
      do m <- expectation self to_number;
      update_self self (set_mean (Some m)) ;;
      ret m
  | Some m => ret m
  end.

Definition variance (self : ref) : M st Q :=
  do e <- get_self self;
  match _variance e with
  | None =>
      do m <- mean self;
      do v <- expectation self (fun x => (to_number x - m) * (to_number x - m))%Q;
      update_self self (set_variance (Some v)) ;;
      ret v
  | Some v => ret v
  end.

(** [mode]; the warning printed for uniform weights changes nothing. *)
Definition mode (self : ref) : M st V :=
  _check_finalized self ;;
  do e <- get_self self;
  match _mode e with
  | None =>
      do log_weights <- read_weight_list (_log_weights e);
      do v <- _get_value self (Z.of_nat (torch_argmax log_weights));
      update_self self (set_mode (Some v)) ;;
      ret v
  | Some v => ret v
  end.

Definition effective_sample_size (self : ref) : M st Q :=
  _check_finalized self ;;
  do e <- get_self self;
  match _effective_sample_size e with
  | None =>
      do c <- categorical_attr e;
      let weights := categorical_probs (logits c) in
      let ess := (1 / sum (List.map (fun p => p * p) weights))%Q in
      update_self self (set_effective_sample_size (Some ess)) ;;
      ret ess
  | Some x => ret x
  end.

(** [_find_min_max]: whatever fails inside the [try], the bare [except]
    answers with the same [RuntimeError]. *)
Definition _find_min_max (self : ref) : M st unit :=
  try_except
    (do values <- get_values self;
     do floats <- comprehension values (fun v =>
                    match python_float v with
                    | Some x => ret x
                    | None => raise (TypeError "float")
                    end);
     let sorted_values := sorted floats in
     do lo <- getitem sorted_values 0;
     update_self self (set_min (Some lo)) ;;
     do hi <- getitem sorted_values (-1);
     update_self self (set_max (Some hi)))
    (raise (RuntimeError msg_min_max)).

Definition min (self : ref) : M st (option Q) :=
  do e <- get_self self;
  (match _min e with
   | None => _find_min_max self
   | Some _ => ret tt
   end) ;;
  do e <- get_self self;
  ret (_min e).

Definition max (self : ref) : M st (option Q) :=
  do e <- get_self self;
  (match _max e with
   | None => _find_min_max self
   | Some _ => ret tt
   end) ;;
  do e <- get_self self;
  ret (_max e).

(** [dist._on_disk] on an arbitrary object. *)
Definition getattr_on_disk (o : pyobj) : M st bool :=
  match o with
  | PyEmpirical r => do e <- get_self r; ret (_on_disk e)
  | PyOther (Some b) => ret b
  | PyOther None => raise (AttributeError "_on_disk")
  end.

(** An attribute of [Empirical] on an arbitrary object. *)
Definition as_empirical (o : pyobj) : M st Emp :=
  match o with
  | PyEmpirical r => get_self r
  | PyOther _ => raise (AttributeError "_length")
  end.

(** The first loop of [combine]: the checks. *)
Definition combine_check (on_disk : bool) (dist : pyobj) : M st unit :=
  do d <- getattr_on_disk dist;
  if negb (Bool.eqb d on_disk) then raise (RuntimeError msg_mode_mismatch)
  else if negb (isinstance_Empirical dist) then
    raise (TypeError msg_not_empirical)
  else ret tt.

(** The loop of the in-memory branch of [combine]. *)
Fixpoint combine_in_memory (length : nat) (dists : list pyobj)
  (values : list V) (log_weights : list tensor)
  : M st (list V * list tensor) :=
  match dists with
  | [] => ret (values, log_weights)
  | dist :: rest =>
      do e <- as_empirical dist;
      if negb (_length e =? length)%nat then
        raise (RuntimeError msg_unequal_length)
      else
        do l <- values_attr e;
        do vs <- read_value_list l;
        do ws <- read_weight_list (_log_weights e);
        combine_in_memory length rest (values ++ vs) (log_weights ++ ws)
  end.

(** [Empirical.combine(empirical_distributions, file_name)] *)
Definition combine (empirical_distributions : list pyobj)
  (file_name : option string) : M st ref :=
  do first <- index empirical_distributions 0;
  do on_disk <- getattr_on_disk first;
  for_each empirical_distributions (combine_check on_disk) ;;
  if on_disk then
    match file_name with
    | None => raise (RuntimeError msg_no_target)
    | Some f =>
        do r <- __init__ None None None (Some f) default_timeout default_name;
        for_each empirical_distributions (fun dist =>
          do e <- as_empirical dist;
          for_each (range (_length e)) (fun i =>
            do h <- shelf_attr e;
            do v <- shelf_get_item h (Z.of_nat i);
            do log_weights <- read_weight_list (_log_weights e);
            do lw <- index log_weights i;
            add r v (Some lw) None)) ;;
        finalize r ;;
        ret r
    end
  else
    do first_e <- as_empirical first;
    do all <- combine_in_memory (_length first_e) empirical_distributions [] [];
    __init__ (Some (fst all)) (Some (snd all)) None file_name
      default_timeout default_name.

End Methods.
End Empirical.

(** ** The effect of the methods, in closed form

    The instances and files that the methods leave behind; the lemmas below
    show that the methods compute them. *)

Section Effects.
Context {V : Type} `{Numerics V}.

Local Abbreviation st := (@store V).
Local Abbreviation Emp := (@Empirical V).

(** The log-weight that [add] appends for its two optional arguments. *)
Definition weight_arg (log_weight weight : option tensor) : tensor :=
  match log_weight, weight with
  | Some lw, _ => lw
  | None, Some w => torch_log w
  | None, None => tensor_zero
  end.

(** The instance after the first lines of [add]. *)
Definition added (e : Emp) : Emp :=
  Empirical.clear_statistics (set_finalized false e).

(** The instance after [finalize], when its log-weights are [ws]. *)
Definition finalized_of (ws : list tensor) (e : Emp) : Emp :=
  set_finalized true
    (set_length (length ws)
       (set_uniform_weights
          (forallb (fun w => torch_eq w (List.hd tensor_zero ws)) ws)
          (set_categorical (Some (Categorical_of_logits ws)) e))).

(** The shelf file after [finalize]. *)
Definition synced_db (e : Emp) (ws : list tensor) (db : @shelf_db V)
  : @shelf_db V :=
  mkDb (Some (name e)) (Some ws) (Some (_file_last_key e)) (db_items db)
    (S (db_syncs db)).

(** One step of the loops of [add_sequence]. *)
Definition add_item (self : ref) (p : V * tensor) : M st unit :=
  Empirical.add self (fst p) (Some (snd p)) None.

(** The log-weights that [add_sequence] appends. *)
Definition batch_weights (values : list V)
  (log_weights weights : option (list tensor)) : list tensor :=
  match log_weights, weights with
  | Some lws, _ => lws
  | None, Some ws => List.map torch_log ws
  | None, None => replicate (length values) tensor_zero
  end.

(** The in-memory instance that [__init__] allocates in store [s]. *)
Definition new_in_memory (s : st) (nm : string) : Emp :=
  mkEmpirical false false None (length (weight_lists s)) 0 false
    (Some (length (value_lists s))) None None 0 0 0
    None None None None None None false nm.

(** The shelf file after [shelf[str(i)] = v]. *)
Definition stored_item (i : Z) (v : V) (db : @shelf_db V) : @shelf_db V :=
  mkDb (db_name db) (db_log_weights db) (db_last_key db)
    (<[i := v]> (db_items db)) (db_syncs db).

(** The persistent instance after [add] stored its value and counted it. *)
Definition counted (e : Emp) : Emp :=
  set_file_sync_countdown (_file_sync_countdown e - 1)
    (set_file_last_key (_file_last_key e + 1) (added e)).

(** The persistent instance after an [add] that reached the end of the
    countdown, [ws] being the log-weights after the [add]. *)
Definition auto_finalized (ws : list tensor) (e : Emp) : Emp :=
  set_file_sync_countdown (_file_sync_timeout e) (finalized_of ws (counted e)).

(** The storage behind an instance is there: the open shelf and its file,
    or the list of values. *)
Definition storage_ready (s : st) (e : Emp) : Prop :=
  if _on_disk e then
    exists h db, _shelf e = Some h /\ shelf_closed h = false /\
                 disk s !! shelf_file h = Some db
  else
    exists l vs, _values e = Some l /\ value_lists s !! l = Some vs.

(** Between stores [s] and [s'] one more value, [v], was stored for the
    instance: under the next key of the shelf, or at the end of the list. *)
Definition value_stored (s s' : st) (e e' : Emp) (v : V) : Prop :=
  if _on_disk e then
    exists h db', _shelf e' = Some h /\ disk s' !! shelf_file h = Some db' /\
                  _file_last_key e' = _file_last_key e + 1 /\
                  db_items db' !! _file_last_key e' = Some v
  else
    exists l vs, _values e' = Some l /\ value_lists s !! l = Some vs /\
                 value_lists s' !! l = Some (vs ++ [v]).

(** [add] on this instance ends the countdown and finalizes. *)
Definition countdown_ends (e : Emp) : bool :=
  _on_disk e && (_file_sync_countdown e - 1 =? 0).

(** The number of [sync()] calls seen by the file of a shelf. *)
Definition syncs_of (s : st) (file_name : string) : option nat :=
  db_syncs <$> disk s !! file_name.

(** Nothing was read from the instance since its last [add]: it is not
    finalized and caches no mean, variance, minimum or maximum. *)
Definition unread (e : Emp) : Prop :=
  _finalized e = false /\ _mean e = None /\ _variance e = None /\
  _min e = None /\ _max e = None.

(** [self] is a finalized collection of the values [vs] with the
    log-weights [ws]: the attributes agree with each other, the categorical
    was built from [ws], and the values are in the list (in memory) or under
    the keys [0 .. len-1] of the open shelf (persistent). *)
Definition collection (s : st) (self : ref) (vs : list V) (ws : list tensor)
  : Prop :=
  exists e,
    objects s !! self = Some e /\
    _finalized e = true /\
    _length e = length vs /\
    length ws = length vs /\
    _categorical e = Some (mkCategorical ws) /\
    weight_lists s !! _log_weights e = Some ws /\
    if _on_disk e then
      exists h db, _shelf e = Some h /\ shelf_closed h = false /\
                   disk s !! shelf_file h = Some db /\
                   forall i v, vs !! i = Some v ->
                               db_items db !! Z.of_nat i = Some v
    else
      exists l, _values e = Some l /\ value_lists s !! l = Some vs.

(** The pairs of value and log-weight that [filter] keeps. *)
Definition kept_pairs (func : V -> bool) (vs : list V) (ws : list tensor)
  : list (V * tensor) :=
  List.filter (fun p => func (fst p)) (zip vs ws).

(** The calls that a program makes on the class: the constructor and the
    methods, with their arguments. *)
Inductive call : Type :=
| Call_init (values : option (list V)) (log_weights weights : option (list tensor))
    (file_name : option string) (file_sync_timeout : Z) (name : string)
| Call_len (self : ref)
| Call_close (self : ref)
| Call_copy (self : ref) (file_name : option string)
| Call_finalize (self : ref)
| Call_check_finalized (self : ref)
| Call_add (self : ref) (value : V) (log_weight weight : option tensor)
| Call_add_sequence (self : ref) (values : list V)
    (log_weights weights : option (list tensor))
| Call_get_value (self : ref) (i : Z)
| Call_get_log_weight (self : ref) (i : Z)
| Call_get_values (self : ref)
| Call_sample (self : ref) (min_index max_index : option Z)
| Call_expectation (self : ref) (func : V -> Q)
| Call_filter (self : ref) (func : V -> bool)
| Call_resample (self : ref) (num_samples : nat) (map_func : option (V -> V))
| Call_mean (self : ref)
| Call_variance (self : ref)
| Call_mode (self : ref)
| Call_effective_sample_size (self : ref)
| Call_find_min_max (self : ref)
| Call_min (self : ref)
| Call_max (self : ref)
| Call_combine (empirical_distributions : list pyobj) (file_name : option string).

(** What a call does to the store; its result, or the exception it ends
    with, is left to the caller. *)
Definition perform (c : call) : M st unit :=
  match c with
  | Call_init values log_weights weights file_name file_sync_timeout name =>
      Empirical.__init__ values log_weights weights file_name
        file_sync_timeout name ;; ret tt
  | Call_len self => Empirical.__len__ self ;; ret tt
  | Call_close self => Empirical.close self
  | Call_copy self file_name => Empirical.copy self file_name ;; ret tt
  | Call_finalize self => Empirical.finalize self
  | Call_check_finalized self => Empirical._check_finalized self
  | Call_add self value log_weight weight =>
      Empirical.add self value log_weight weight
  | Call_add_sequence self values log_weights weights =>
      Empirical.add_sequence self values log_weights weights
  | Call_get_value self i => Empirical._get_value self i ;; ret tt
  | Call_get_log_weight self i => Empirical._get_log_weight self i ;; ret tt
  | Call_get_values self => Empirical.get_values self ;; ret tt
  | Call_sample self min_index max_index =>
      Empirical.sample self min_index max_index ;; ret tt
  | Call_expectation self func => Empirical.expectation self func ;; ret tt
  | Call_filter self func => Empirical.filter self func ;; ret tt
  | Call_resample self num_samples map_func =>
      Empirical.resample self num_samples map_func ;; ret tt
  | Call_mean self => Empirical.mean self ;; ret tt
  | Call_variance self => Empirical.variance self ;; ret tt
  | Call_mode self => Empirical.mode self ;; ret tt
  | Call_effective_sample_size self =>
      Empirical.effective_sample_size self ;; ret tt
  | Call_find_min_max self => Empirical._find_min_max self
  | Call_min self => Empirical.min self ;; ret tt
  | Call_max self => Empirical.max self ;; ret tt
  | Call_combine empirical_distributions file_name =>
      Empirical.combine empirical_distributions file_name ;; ret tt
  end.

(** A program as the sequence of its calls: each one runs in the store
    that the one before left behind, whether it returned or raised. *)
Definition run (s : st) (calls : list call) : st :=
  foldl (fun s c => snd (perform c s)) s calls.

(** An instance whose length is zero is [unread]. *)
Definition unread_when_empty (e : Emp) : Prop :=
  _length e = 0%nat -> unread e.

Definition sound (s : st) : Prop := Forall unread_when_empty (objects s).

(** The instance behind [self] is finalized. *)
Definition finalized_at (self : ref) (s : st) : Prop :=
  exists e, objects s !! self = Some e /\ _finalized e = true.

(** A computation that keeps [sound], however it ends. *)
Definition keeps {A} (m : M st A) : Prop :=
  forall s, sound s -> sound (snd (m s)).

(** A computation that leaves every instance as it is. *)
Definition reads {A} (m : M st A) : Prop :=
  forall s, objects (snd (m s)) = objects s.

(** The instance behind [self], if there is one, has a length that is not
    zero. *)
Definition positive_at (self : ref) (s : st) : Prop :=
  forall e, objects s !! self = Some e -> _length e <> 0%nat.

(** A computation that keeps [sound] and [positive_at self] together. *)
Definition keeps_positive (self : ref) {A} (m : M st A) : Prop :=
  forall s, sound s -> positive_at self s ->
            sound (snd (m s)) /\ positive_at self (snd (m s)).

(** A persistent instance while it is filled: behind the open shelf [h]
    the values [vs] are stored under the keys [0 .. len(vs)-1], the last
    key is [len(vs)-1], and the list [lwr] holds the log-weights [ws].
    Whether the instance is finalized is left open. *)
Definition filling (s : st) (self : ref) (h : Shelf) (lwr : ref)
  (vs : list V) (ws : list tensor) : Prop :=
  exists e db,
    objects s !! self = Some e /\
    _on_disk e = true /\
    _shelf e = Some h /\
    shelf_closed h = false /\
    _log_weights e = lwr /\
    disk s !! shelf_file h = Some db /\
    weight_lists s !! lwr = Some ws /\
    _file_last_key e = Z.of_nat (length vs) - 1 /\
    length ws = length vs /\
    forall i v, vs !! i = Some v -> db_items db !! Z.of_nat i = Some v.

(** Between [s] and [s'] nothing changed but the instance [self], the
    list of log-weights [lwr] and the files. *)
Definition only_filled (s s' : st) (self lwr : ref) : Prop :=
  length (objects s') = length (objects s) /\
  (forall r, r <> self -> objects s' !! r = objects s !! r) /\
  value_lists s' = value_lists s /\
  length (weight_lists s') = length (weight_lists s) /\
  (forall l, l <> lwr -> weight_lists s' !! l = weight_lists s !! l) /\
  draws s' = draws s.

(** The mode of an instance: [Some true] when it is persistent. *)
Definition mode_of (s : st) (self : ref) : option bool :=
  _on_disk <$> objects s !! self.

(** Every instance and every list of [s] is still there in [s'], with the
    same content. *)
Definition preserved (s s' : st) : Prop :=
  (forall r e, objects s !! r = Some e -> objects s' !! r = Some e) /\
  (forall l vs, value_lists s !! l = Some vs -> value_lists s' !! l = Some vs) /\
  (forall l ws, weight_lists s !! l = Some ws -> weight_lists s' !! l = Some ws).

(** [self._log_weights], read as a list. *)
Definition get_log_weights (self : ref) : M st (list tensor) :=
  do e <- get_self self;
  read_weight_list (_log_weights e).

End Effects.

(** ** Collections of integers

    The instance used for the concrete cases below: values are Python
    integers.  [float(v)] and the conversion to a tensor are exact.  Of
    [torch.log] only the results that IEEE 754 fixes exactly are given
    (log 1 = +0, log 0 = -inf, log +inf = +inf, NaN otherwise); of the
    soft-max only the uniform case.  The concrete cases need no more. *)

Module Examples.

(** The tensor 1.0 (single precision). *)
Definition one : tensor := S754_finite false 8388608 (-23).

Definition exact_log (w : tensor) : tensor :=
  match w with
  | S754_zero _ => S754_infinity true
  | S754_infinity false => S754_infinity false
  | S754_finite false 8388608 (-23) => S754_zero false
  | _ => S754_nan
  end.

#[export] Instance integers : Numerics Z := {|
  torch_log := exact_log;
  categorical_probs := fun ws =>
    replicate (length ws) (1 / inject_Z (Z.of_nat (length ws)))%Q;
  torch_argmax := fun _ => 0%nat;
  python_float := fun v => Some (inject_Z v);
  to_number := inject_Z;
  random_stream := fun n => n
|}.

(** A program run from the empty store: its result. *)
Definition result {A} (m : M (@store Z) A) : outcome A := fst (m empty_store).

(** *** Programs for the concrete cases *)

Definition sample_file : string := "samples.db".

(** Copy to a file and back, for a collection named ["posterior"]. *)
Definition round_trip_named : M (@store Z) (string * string * list Z * list tensor) :=
  do e <- Empirical.__init__ (Some [1; 2]) (Some [one; tensor_zero]) None None
            Empirical.default_timeout "posterior";
  do p <- Empirical.copy e (Some sample_file);
  do r <- Empirical.copy p None;
  do orig <- get_self e;
  do back <- get_self r;
  do l <- values_attr back;
  do vs <- read_value_list l;
  do ws <- read_weight_list (_log_weights back);
  ret (name orig, name back, vs, ws).

(** A persistent collection of two values. *)
Definition persistent_pair : M (@store Z) nat :=
  Empirical.__init__ (Some [1; 2]) None None (Some sample_file)
    Empirical.default_timeout Empirical.default_name.

Definition close_once : M (@store Z) (option nat) :=
  do p <- persistent_pair;
  Empirical.close p ;;
  gets (fun s => syncs_of s sample_file).

Definition close_twice : M (@store Z) unit :=
  do p <- persistent_pair;
  Empirical.close p ;;
  Empirical.close p.

(** [add_sequence([1,2,3], weights=[1,1,1])] *)
Definition one_two_three : M (@store Z) nat :=
  Empirical.__init__ (Some [1; 2; 3]) None (Some [one; one; one]) None
    Empirical.default_timeout Empirical.default_name.

(** What is looked at in a collection: values, log-weights, length,
    finalized, uniform. *)
Definition observe (r : nat)
  : M (@store Z) (list Z * list tensor * nat * bool * bool) :=
  do e <- get_self r;
  do l <- values_attr e;
  do vs <- read_value_list l;
  do ws <- read_weight_list (_log_weights e);
  ret (vs, ws, _length e, _finalized e, _uniform_weights e).

Definition filter_above (bound : Z)
  : M (@store Z) (list Z * list tensor * nat * bool * bool) :=
  do e <- one_two_three;
  do f <- Empirical.filter e (fun v => bound <? v);
  observe f.

Definition filter_above_mean (bound : Z) : M (@store Z) Q :=
  do e <- one_two_three;
  do f <- Empirical.filter e (fun v => bound <? v);
  Empirical.mean f.

Definition resample_count (n : nat)
  : M (@store Z) (list Z * list tensor * nat * bool * bool) :=
  do e <- one_two_three;
  do r <- Empirical.resample e n None;
  observe r.

(** Three [add] calls on a new persistent collection with
    [file_sync_timeout=2]: the number of syncs after each. *)
Definition three_adds : M (@store Z) (option nat * option nat * option nat) :=
  do p <- Empirical.__init__ None None None (Some sample_file) 2
            Empirical.default_name;
  Empirical.add p 10 None None ;;
  do n1 <- gets (fun s => syncs_of s sample_file);
  Empirical.add p 11 None None ;;
  do n2 <- gets (fun s => syncs_of s sample_file);
  Empirical.add p 12 None None ;;
  do n3 <- gets (fun s => syncs_of s sample_file);
  ret (n1, n2, n3).

(** Log-weights +0 and -0. *)
Definition signed_zeros : M (@store Z) (list Z * list tensor * nat * bool * bool) :=
  do e <- Empirical.__init__ (Some [1; 2]) (Some [S754_zero false; S754_zero true])
            None None Empirical.default_timeout Empirical.default_name;
  observe e.

(** [c = e.copy(); c.add(3)], then the original is looked at. *)
Definition add_to_copy : M (@store Z) (list Z * list tensor * nat * bool * bool) :=
  do e <- Empirical.__init__ (Some [1; 2]) None None None
            Empirical.default_timeout Empirical.default_name;
  do c <- Empirical.copy e None;
  Empirical.add c 3 None None ;;
  observe e.

(** [c = e.copy(); e.add(3)], then the copy is looked at. *)
Definition add_to_original : M (@store Z) (list Z * list tensor * nat * bool * bool) :=
  do e <- Empirical.__init__ (Some [1; 2]) None None None
            Empirical.default_timeout Empirical.default_name;
  do c <- Empirical.copy e None;
  Empirical.add e 3 None None ;;
  observe c.

(** [Empirical.combine([e, 42])] *)
Definition combine_with_int : M (@store Z) nat :=
  do e <- Empirical.__init__ (Some [1; 2]) None None None
            Empirical.default_timeout Empirical.default_name;
  Empirical.combine [PyEmpirical e; PyOther None] None.

(** Statistics of [Empirical()]. *)
Definition empty_collection : M (@store Z) nat :=
  Empirical.__init__ None None None None Empirical.default_timeout
    Empirical.default_name.

(** The exception a program ends with, if any. *)
Definition raised {A} (o : outcome A) : option exn :=
  match o with
  | Raise e => Some e
  | Ret _ => None
  end.

(** The stores that the witnesses below start from, and their instance. *)
Definition store_after {A} (m : M (@store Z) A) : @store Z := snd (m empty_store).

Definition instance_at (s : @store Z) (r : nat) : @Empirical Z :=
  default (new_in_memory s "") (objects s !! r).

Definition file_at (s : @store Z) (f : string) : @shelf_db Z :=
  default empty_db (disk s !! f).

(** A program of three calls: [e = Empirical([1, 2])], then [e.mean], then
    [e.filter(lambda v: v > 5)], which keeps nothing. *)
Definition mean_then_filter_out : list (@call Z) :=
  [Call_init (Some [1; 2]) None None None Empirical.default_timeout
     Empirical.default_name;
   Call_mean 0%nat;
   Call_filter 0%nat (fun v => 5 <? v)].

(** Copy to a file that holds a collection already, and back: the file is
    written by [Empirical([7], file_name=...)] and closed, then
    [Empirical([1, 2])] is copied to it and the copy is copied back. *)
Definition round_trip_existing : M (@store Z) (list Z * list tensor) :=
  do q <- Empirical.__init__ (Some [7]) None None (Some sample_file)
            Empirical.default_timeout Empirical.default_name;
  Empirical.close q ;;
  do e <- Empirical.__init__ (Some [1; 2]) None None None
            Empirical.default_timeout Empirical.default_name;
  do p <- Empirical.copy e (Some sample_file);
  do r <- Empirical.copy p None;
  do back <- get_self r;
  do l <- values_attr back;
  do vs <- read_value_list l;
  do ws <- read_weight_list (_log_weights back);
  ret (vs, ws).

End Examples.

(** * Properties *)

(** ** Running a computation step by step *)

Section MonadFacts.
Context {S : Type}.

Lemma bind_ret {A B} (m : M S A) (k : A -> M S B) s a s' :
  m s = (Ret a, s') -> bind m k s = k a s'.
Proof. intros Hm. unfold bind. now rewrite Hm. Qed.

Lemma bind_raise {A B} (m : M S A) (k : A -> M S B) s e s' :
  m s = (Raise e, s') -> bind m k s = (Raise e, s').
Proof. intros Hm. unfold bind. now rewrite Hm. Qed.

Lemma bind_inv_ret {A B} (m : M S A) (k : A -> M S B) s b s2 :
  bind m k s = (Ret b, s2) ->
  exists a s1, m s = (Ret a, s1) /\ k a s1 = (Ret b, s2).
Proof.
  unfold bind. destruct (m s) as [[a|e] s1]; intros Hk.
  - now exists a, s1.
  - discriminate.
Qed.

End MonadFacts.

(** ** Lists as heaps *)

Lemma alter_lookup_insert {A} (f : A -> A) (l : list A) i x :
  l !! i = Some x -> alter f i l = <[i := f x]> l.
Proof.
  revert i. induction l as [|y l IH]; intros [|i] Hi; simpl in *; try discriminate.
  - now inversion Hi.
  - f_equal. now apply IH.
Qed.

Lemma lookup_snoc_new {A} (l : list A) x : (l ++ [x]) !! length l = Some x.
Proof. rewrite lookup_app_r by lia. now rewrite Nat.sub_diag. Qed.

Lemma lookup_snoc_old {A} (l : list A) x i y :
  l !! i = Some y -> (l ++ [x]) !! i = Some y.
Proof. intros Hi. now apply lookup_app_l_Some. Qed.

Lemma insert_snoc_new {A} (l : list A) x y :
  <[length l := y]> (l ++ [x]) = l ++ [y].
Proof.
  induction l as [|z l IH]; simpl; [reflexivity|]. now rewrite IH.
Qed.

(** ** IEEE equality *)

Lemma finite_compare_eq (ma mb : positive) (ea eb : Z) :
  match ea ?= eb with
  | Eq => PosDef.Pos.compare_cont Eq ma mb
  | Lt => Lt
  | Gt => Gt
  end = Eq <-> ma = mb /\ ea = eb.
Proof.
  change (PosDef.Pos.compare_cont Eq ma mb) with (Pos.compare ma mb).
  split.
  - destruct (ea ?= eb) eqn:He; try discriminate.
    intros Hm. apply Pos.compare_eq in Hm. apply Z.compare_eq in He. now split.
  - intros [-> ->]. now rewrite Z.compare_refl, Pos.compare_refl.
Qed.

Lemma finite_compare_opp_eq (ma mb : positive) (ea eb : Z) :
  match ea ?= eb with
  | Eq => CompOpp (PosDef.Pos.compare_cont Eq ma mb)
  | Lt => Gt
  | Gt => Lt
  end = Eq <-> ma = mb /\ ea = eb.
Proof.
  change (PosDef.Pos.compare_cont Eq ma mb) with (Pos.compare ma mb).
  split.
  - destruct (ea ?= eb) eqn:He; try discriminate.
    destruct (Pos.compare ma mb) eqn:Hm; try discriminate.
    intros _. apply Pos.compare_eq in Hm. apply Z.compare_eq in He. now split.
  - intros [-> ->]. now rewrite Z.compare_refl, Pos.compare_refl.
Qed.

Ltac no_eq :=
  cbn; split;
  [ intros Hf; discriminate Hf
  | intros [[Hf1 Hf2]|[Hf1 Hf2]]; first [discriminate Hf1 | discriminate Hf2] ].

Lemma torch_eq_true (a b : tensor) :
  torch_eq a b = true <->
  (a = b /\ is_nan a = false) \/ (is_zero a = true /\ is_zero b = true).
Proof.
  unfold torch_eq, SFeqb.
  destruct a as [sa|sa| |sa ma ea], b as [sb|sb| |sb mb eb]; cbn;
    try (no_eq; fail);
    try (split; [intros _; right; split; reflexivity | reflexivity]);
    try (destruct sa; no_eq; fail);
    try (destruct sb; no_eq; fail).
  - destruct sa, sb; cbn; split; try discriminate; intros Hx;
      try (left; split; reflexivity); try reflexivity;
      destruct Hx as [[? ?]|[? ?]]; discriminate.
  - destruct sa, sb; cbn;
      try (no_eq; fail).
    + destruct (finite_compare_opp_eq ma mb ea eb) as [H1 H2].
      destruct (match ea ?= eb with Eq => _ | Lt => _ | Gt => _ end) eqn:Hc.
      * destruct (H1 eq_refl) as [-> ->]. split; [left; split; reflexivity | reflexivity].
      * split; [discriminate | intros [[Heq _]|[? ?]]; [|discriminate]].
        inversion Heq; subst. now specialize (H2 (conj eq_refl eq_refl)).
      * split; [discriminate | intros [[Heq _]|[? ?]]; [|discriminate]].
        inversion Heq; subst. now specialize (H2 (conj eq_refl eq_refl)).
    + destruct (finite_compare_eq ma mb ea eb) as [H1 H2].
      destruct (match ea ?= eb with Eq => _ | Lt => _ | Gt => _ end) eqn:Hc.
      * destruct (H1 eq_refl) as [-> ->]. split; [left; split; reflexivity | reflexivity].
      * split; [discriminate | intros [[Heq _]|[? ?]]; [|discriminate]].
        inversion Heq; subst. now specialize (H2 (conj eq_refl eq_refl)).
      * split; [discriminate | intros [[Heq _]|[? ?]]; [|discriminate]].
        inversion Heq; subst. now specialize (H2 (conj eq_refl eq_refl)).
Qed.

(** ** What [finalize], [add] and [__init__] do *)

Ltac unfold_prims :=
  unfold get_self, read_weight_list, read_value_list, update_self, index,
    append_value, append_weight, values_attr, shelf_attr, shelf_set_name,
    shelf_set_log_weights, shelf_set_last_key, shelf_set_item, shelf_sync,
    shelf_get_item, shelf_write, shelf_db_of, new_object, new_value_list,
    new_weight_list, shelve_open, bind, ret, raise, modify, gets.

Create HintDb effects.

Section Facts.
Context {V : Type} `{Numerics V}.

Local Abbreviation st := (@store V).
Local Abbreviation Emp := (@Empirical V).

Lemma alter_alter {A} (f g : A -> A) i (l : list A) :
  alter f i (alter g i l) = alter (fun x => f (g x)) i l.
Proof.
  revert i. induction l as [|x l IH]; intros [|i]; simpl; try reflexivity.
  f_equal. apply IH.
Qed.


Lemma finalize_in_memory (s : st) self e ws :
  objects s !! self = Some e ->
  _on_disk e = false ->
  weight_lists s !! _log_weights e = Some ws ->
  ws <> [] ->
  Empirical.finalize self s =
    (Ret tt, set_objects (<[self := finalized_of ws e]> (objects s)) s).
Proof.
  intros He Hmem Hws Hne.
  destruct ws as [|first ws]; [congruence|].
  unfold Empirical.finalize. unfold_prims.
  rewrite He, Hws. cbn. rewrite Hmem. cbn.
  unfold set_objects. cbn. rewrite !alter_alter.
  now rewrite (alter_lookup_insert _ _ _ _ He).
Qed.

Lemma finalize_on_disk (s : st) self e ws h db :
  objects s !! self = Some e ->
  _on_disk e = true ->
  weight_lists s !! _log_weights e = Some ws ->
  ws <> [] ->
  _shelf e = Some h ->
  shelf_closed h = false ->
  disk s !! shelf_file h = Some db ->
  Empirical.finalize self s =
    (Ret tt,
     mkStore (<[self := finalized_of ws e]> (objects s)) (value_lists s)
       (weight_lists s) (<[shelf_file h := synced_db e ws db]> (disk s)) (draws s)).
Proof.
  intros He Hdisk Hws Hne Hh Hopen Hdb.
  destruct ws as [|first ws]; [congruence|].
  unfold Empirical.finalize. unfold_prims.
  rewrite He, Hws. cbn. rewrite Hdisk, Hh. cbn. rewrite Hopen, Hdb.
  unfold set_objects, set_disk.
  repeat (progress (cbn; rewrite ?lookup_insert_eq, ?insert_insert_eq)).
  rewrite !alter_alter.
  now rewrite (alter_lookup_insert _ _ _ _ He).
Qed.

Lemma finalize_empty (s : st) self e :
  objects s !! self = Some e ->
  weight_lists s !! _log_weights e = Some [] ->
  Empirical.finalize self s =
    (Raise IndexError,
     set_objects (<[self := set_categorical (Some (Categorical_of_logits [])) e]> (objects s)) s).
Proof.
  intros He Hws.
  unfold Empirical.finalize. unfold_prims.
  rewrite He, Hws. cbn.
  now rewrite (alter_lookup_insert _ _ _ _ He).
Qed.


Lemma add_in_memory (s : st) self e l v lw w :
  objects s !! self = Some e ->
  _on_disk e = false ->
  _values e = Some l ->
  Empirical.add self v lw w s =
    (Ret tt,
     mkStore (<[self := added e]> (objects s))
       (alter (fun vs => vs ++ [v]) l (value_lists s))
       (alter (fun ws => ws ++ [weight_arg lw w]) (_log_weights e) (weight_lists s))
       (disk s) (draws s)).
Proof.
  intros He Hmem Hl.
  unfold Empirical.add. unfold_prims. unfold set_objects at 1 2. cbn [objects].
  rewrite !list_lookup_alter_eq. rewrite He. cbn. rewrite Hmem, Hl. cbn.
  unfold set_objects. cbn. rewrite !alter_alter.
  now rewrite (alter_lookup_insert _ _ _ _ He).
Qed.


Lemma alter_ext_eq {A} (f g : A -> A) i (l : list A) :
  (forall x, f x = g x) -> alter f i l = alter g i l.
Proof.
  intros Hfg. revert i. induction l as [|x l IH]; intros [|i]; simpl; try reflexivity.
  - now rewrite Hfg.
  - f_equal. apply IH.
Qed.

Lemma alter_snoc_new {A} (f : A -> A) (l : list A) x :
  alter f (length l) (l ++ [x]) = l ++ [f x].
Proof. induction l as [|y l IH]; simpl; [reflexivity|]. f_equal. exact IH. Qed.

Lemma added_idem (e : Emp) : added (added e) = added e.
Proof. destruct e. vm_compute. reflexivity. Qed.

Lemma log_weights_added (e : Emp) : _log_weights (added e) = _log_weights e.
Proof. reflexivity. Qed.

Lemma for_each_range {X} (body : nat -> M st unit) (g : X -> M st unit) (xs : list X) :
  forall a s,
  (forall k x, xs !! k = Some x -> forall s', body (a + k)%nat s' = g x s') ->
  for_each (seq a (length xs)) body s = for_each xs g s.
Proof.
  induction xs as [|x xs IH]; intros a s Hbody; simpl; [reflexivity|].
  unfold bind. rewrite <- (Hbody 0%nat x eq_refl). rewrite Nat.add_0_r.
  destruct (body a s) as [[[]|err] s1]; [|reflexivity].
  apply IH. intros k y Hk s'. rewrite <- (Hbody (S k) y Hk). f_equal. lia.
Qed.


Lemma add_all_in_memory (self : ref) l items :
  forall (s : st) e,
  objects s !! self = Some e ->
  _on_disk e = false ->
  _values e = Some l ->
  items <> [] ->
  for_each items (add_item self) s =
    (Ret tt,
     mkStore (<[self := added e]> (objects s))
       (alter (fun vs => vs ++ List.map fst items) l (value_lists s))
       (alter (fun ws => ws ++ List.map snd items) (_log_weights e) (weight_lists s))
       (disk s) (draws s)).
Proof.
  induction items as [|[v w] rest IH]; intros s e He Hmem Hl Hne; [congruence|].
  cbn [for_each]. unfold add_item at 1. cbn [fst snd].
  erewrite bind_ret by (eapply add_in_memory; eassumption).
  destruct rest as [|p rest].
  - reflexivity.
  - assert (Hlt : (self < length (objects s))%nat) by (eapply lookup_lt_Some; eassumption).
    rewrite (IH _ (added e)); [|cbn; now apply list_lookup_insert_eq|exact Hmem|exact Hl|discriminate].
    cbn [objects value_lists weight_lists disk draws].
    rewrite added_idem, log_weights_added, list_insert_insert_eq, !alter_alter.
    rewrite (alter_ext_eq _ (fun vs => vs ++ List.map fst ((v, w) :: p :: rest)))
      by (intros x; now rewrite <- app_assoc).
    rewrite (alter_ext_eq _ (fun ws => ws ++ List.map snd ((v, w) :: p :: rest)))
      by (intros x; now rewrite <- app_assoc).
    reflexivity.
Qed.


Lemma zip_lookup_inv {A B} (l : list A) (k : list B) i x y :
  zip l k !! i = Some (x, y) -> l !! i = Some x /\ k !! i = Some y.
Proof.
  intros Hz. apply lookup_zip_with_Some in Hz as (a & b & Heq & Ha & Hb).
  inversion Heq; subst. now split.
Qed.

Lemma add_sequence_items self values lw w (s : st) :
  length (batch_weights values lw w) = length values ->
  Empirical.add_sequence self values lw w s =
  for_each (zip values (batch_weights values lw w)) (add_item self) s.
Proof.
  intros Hlen.
  assert (Hz : length (zip values (batch_weights values lw w)) = length values).
  { rewrite length_zip_with. lia. }
  unfold Empirical.add_sequence, range. rewrite <- Hz.
  destruct lw as [lws|]; [|destruct w as [ws|]]; cbn [batch_weights] in *;
    apply for_each_range; intros k [v x] Hk s'; cbn [Nat.add];
    apply zip_lookup_inv in Hk as [Hv Hx]; unfold index, bind, ret, add_item; cbn [fst snd].
  - now rewrite Hv, Hx.
  - rewrite Hv. rewrite list_lookup_fmap in Hx.
    destruct (ws !! k) as [y|] eqn:Hy; [|discriminate].
    cbn in Hx. inversion Hx; subst. reflexivity.
  - rewrite Hv. apply lookup_replicate in Hx as [-> _]. reflexivity.
Qed.


Lemma init_in_memory (s : st) values lw w t nm :
  values <> [] ->
  length (batch_weights values lw w) = length values ->
  Empirical.__init__ (Some values) lw w None t nm s =
    (Ret (length (objects s)),
     mkStore (objects s ++ [finalized_of (batch_weights values lw w) (new_in_memory s nm)])
       (value_lists s ++ [values])
       (weight_lists s ++ [batch_weights values lw w])
       (disk s) (draws s)).
Proof.
  intros Hne Hlen.
  set (ws := batch_weights values lw w) in *.
  set (e0 := new_in_memory s nm).
  set (s0 := mkStore (objects s ++ [e0]) (value_lists s ++ [[]])
               (weight_lists s ++ [[]]) (disk s) (draws s)).
  assert (He0 : objects s0 !! length (objects s) = Some e0) by apply lookup_snoc_new.
  assert (Hpos : (0 <? length values)%nat = true).
  { apply Nat.ltb_lt. destruct values; [congruence|cbn; lia]. }
  assert (Hitems : zip values ws <> []).
  { intros Hz. apply (f_equal length) in Hz. rewrite length_zip_with in Hz.
    apply Nat.ltb_lt in Hpos. cbn [length] in Hz. lia. }
  unfold Empirical.__init__.
  unfold new_weight_list, new_value_list, new_object, bind, ret. cbn.
  fold e0. change (set_objects _ _) with s0.
  unfold Empirical.init_batch.
  assert (Hpos' := Hpos). cbn in Hpos'. rewrite Hpos'. unfold bind.
  rewrite (add_sequence_items _ _ _ _ _ Hlen). fold ws.
  rewrite (add_all_in_memory _ (length (value_lists s)) _ s0 e0 He0 eq_refl eq_refl Hitems).
  cbn [objects value_lists weight_lists disk draws s0 _log_weights e0 new_in_memory].
  rewrite insert_snoc_new, !alter_snoc_new. cbn [app].
  change (List.map fst (zip values ws)) with ((zip values ws).*1).
  change (List.map snd (zip values ws)) with ((zip values ws).*2).
  rewrite fst_zip, snd_zip by lia.
  erewrite finalize_in_memory.
  - cbn. rewrite insert_snoc_new. reflexivity.
  - cbn. apply lookup_snoc_new.
  - reflexivity.
  - cbn. apply lookup_snoc_new.
  - intros Hws. apply (f_equal length) in Hws. cbn in Hws.
    apply Nat.ltb_lt in Hpos. lia.
Qed.

Lemma alter_insert_same {A} (f : A -> A) (l : list A) i x :
  alter f i (<[i := x]> l) = <[i := f x]> l.
Proof. now rewrite !list_insert_alter, alter_alter. Qed.

Lemma add_on_disk_quiet (s : st) self e h db v lw w :
  objects s !! self = Some e ->
  _on_disk e = true ->
  _shelf e = Some h ->
  shelf_closed h = false ->
  disk s !! shelf_file h = Some db ->
  _file_sync_countdown e - 1 <> 0 ->
  Empirical.add self v lw w s =
    (Ret tt,
     mkStore (<[self := counted e]> (objects s)) (value_lists s)
       (alter (fun ws => ws ++ [weight_arg lw w]) (_log_weights e) (weight_lists s))
       (<[shelf_file h := stored_item (_file_last_key e + 1) v db]> (disk s))
       (draws s)).
Proof.
  intros He Hdisk Hh Hopen Hdb Hc.
  apply Z.eqb_neq in Hc.
  unfold Empirical.add. unfold_prims. unfold set_objects at 1 2. cbn [objects].
  rewrite !list_lookup_alter_eq, He. cbn. rewrite Hdisk, Hh. cbn.
  rewrite Hopen, Hdb, Hc. cbn.
  unfold set_objects. cbn. rewrite !alter_alter.
  now rewrite (alter_lookup_insert _ _ _ _ He).
Qed.

Lemma add_on_disk_sync (s : st) self e h db ws v lw w :
  objects s !! self = Some e ->
  _on_disk e = true ->
  _shelf e = Some h ->
  shelf_closed h = false ->
  disk s !! shelf_file h = Some db ->
  weight_lists s !! _log_weights e = Some ws ->
  _file_sync_countdown e - 1 = 0 ->
  Empirical.add self v lw w s =
    (Ret tt,
     mkStore (<[self := auto_finalized (ws ++ [weight_arg lw w]) e]> (objects s))
       (value_lists s)
       (<[_log_weights e := ws ++ [weight_arg lw w]]> (weight_lists s))
       (<[shelf_file h := synced_db (counted e) (ws ++ [weight_arg lw w])
                            (stored_item (_file_last_key e + 1) v db)]> (disk s))
       (draws s)).
Proof.
  intros He Hdisk Hh Hopen Hdb Hws Hc.
  assert (Hlt : (self < length (objects s))%nat) by (eapply lookup_lt_Some; eassumption).
  assert (Hwlt : (_log_weights e < length (weight_lists s))%nat) by (eapply lookup_lt_Some; eassumption).
  set (s1 := mkStore (<[self := counted e]> (objects s)) (value_lists s)
       (<[_log_weights e := ws ++ [weight_arg lw w]]> (weight_lists s))
       (<[shelf_file h := stored_item (_file_last_key e + 1) v db]> (disk s))
       (draws s)).
  assert (Hfin : Empirical.finalize self s1 =
     (Ret tt,
     mkStore (<[self := finalized_of (ws ++ [weight_arg lw w]) (counted e)]> (objects s1))
       (value_lists s1) (weight_lists s1)
       (<[shelf_file h := synced_db (counted e) (ws ++ [weight_arg lw w])
                            (stored_item (_file_last_key e + 1) v db)]> (disk s1))
       (draws s1))).
  { apply finalize_on_disk; cbn; try assumption.
    - now apply list_lookup_insert_eq.
    - now apply list_lookup_insert_eq.
    - now destruct ws.
    - apply lookup_insert_eq. }
  apply Z.eqb_eq in Hc.
  unfold Empirical.add. unfold_prims. unfold set_objects at 1 2. cbn [objects].
  rewrite !list_lookup_alter_eq, He. cbn -[Empirical.finalize]. rewrite Hdisk, Hh. cbn -[Empirical.finalize].
  rewrite Hopen, Hdb, Hc. cbn -[Empirical.finalize].
  unfold set_objects, set_weight_lists, set_disk. cbn -[Empirical.finalize]. rewrite !alter_alter.
  rewrite (alter_lookup_insert _ _ _ _ He).
  rewrite (alter_lookup_insert _ _ _ _ Hws).
  change (set_file_sync_countdown _ (set_file_last_key _ _)) with (counted e).
  change (Empirical.finalize self _) with (Empirical.finalize self s1). rewrite Hfin. cbn -[Empirical.finalize].
  rewrite alter_insert_same, !list_insert_insert_eq, insert_insert_eq. reflexivity.
Qed.

Lemma len_eq (s : st) self e :
  objects s !! self = Some e -> Empirical.__len__ self s = (Ret (_length e), s).
Proof. intros He. unfold Empirical.__len__, get_self, bind, ret. now rewrite He. Qed.

(** The countdown of a persistent instance, one [add] at a time. *)
Lemma add_countdown_step (s : st) self e h db ws v lw w :
  objects s !! self = Some e ->
  _on_disk e = true ->
  _shelf e = Some h ->
  shelf_closed h = false ->
  disk s !! shelf_file h = Some db ->
  weight_lists s !! _log_weights e = Some ws ->
  exists s' e' db',
    Empirical.add self v lw w s = (Ret tt, s') /\
    objects s' !! self = Some e' /\
    disk s' !! shelf_file h = Some db' /\
    _file_sync_timeout e' = _file_sync_timeout e /\
    if _file_sync_countdown e - 1 =? 0 then
      _finalized e' = true /\
      _file_sync_countdown e' = _file_sync_timeout e /\
      db_syncs db' = S (db_syncs db) /\
      db_log_weights db' = Some (ws ++ [weight_arg lw w])
    else
      _finalized e' = false /\
      _file_sync_countdown e' = _file_sync_countdown e - 1 /\
      db_syncs db' = db_syncs db.
Proof.
  intros He Hdisk Hh Hopen Hdb Hws.
  assert (Hlt : (self < length (objects s))%nat) by (eapply lookup_lt_Some; eassumption).
  destruct (_file_sync_countdown e - 1 =? 0) eqn:Hc.
  - apply Z.eqb_eq in Hc.
    eexists _, _, _. split; [eapply add_on_disk_sync; eassumption|].
    cbn. split; [now apply list_lookup_insert_eq|].
    split; [apply lookup_insert_eq|]. cbn. auto.
  - apply Z.eqb_neq in Hc.
    eexists _, _, _. split; [eapply add_on_disk_quiet; eassumption|].
    cbn. split; [now apply list_lookup_insert_eq|].
    split; [apply lookup_insert_eq|]. cbn. auto.
Qed.

Lemma finalize_ready (s : st) self e ws :
  objects s !! self = Some e ->
  weight_lists s !! _log_weights e = Some ws ->
  ws <> [] ->
  storage_ready s e ->
  exists s',
    Empirical.finalize self s = (Ret tt, s') /\
    objects s' !! self = Some (finalized_of ws e) /\
    weight_lists s' = weight_lists s /\
    value_lists s' = value_lists s /\
    storage_ready s' (finalized_of ws e).
Proof.
  intros He Hws Hne Hready.
  assert (Hlt : (self < length (objects s))%nat) by (eapply lookup_lt_Some; eassumption).
  unfold storage_ready in *. cbn.
  destruct (_on_disk e) eqn:Hdisk.
  - destruct Hready as (h & db & Hh & Hopen & Hdb).
    eexists. split; [eapply finalize_on_disk; eassumption|]. cbn.
    split; [now apply list_lookup_insert_eq|]. do 2 (split; [reflexivity|]).
    exists h, (synced_db e ws db). rewrite lookup_insert_eq. auto.
  - destruct Hready as (l & vs & Hl & Hvs).
    eexists. split; [eapply finalize_in_memory; eassumption|]. cbn.
    split; [now apply list_lookup_insert_eq|]. do 2 (split; [reflexivity|]).
    exists l, vs. auto.
Qed.

Lemma add_ready_quiet (s : st) self e ws v lw w :
  objects s !! self = Some e ->
  weight_lists s !! _log_weights e = Some ws ->
  storage_ready s e ->
  countdown_ends e = false ->
  exists s' e',
    Empirical.add self v lw w s = (Ret tt, s') /\
    objects s' !! self = Some e' /\
    _length e' = _length e /\
    _finalized e' = false /\
    _log_weights e' = _log_weights e /\
    weight_lists s' !! _log_weights e' = Some (ws ++ [weight_arg lw w]) /\
    value_stored s s' e e' v.
Proof.
  intros He Hws Hready Hquiet.
  assert (Hlt : (self < length (objects s))%nat) by (eapply lookup_lt_Some; eassumption).
  unfold storage_ready, countdown_ends, value_stored in *.
  destruct (_on_disk e) eqn:Hdisk.
  - destruct Hready as (h & db & Hh & Hopen & Hdb). cbn in Hquiet.
    apply Z.eqb_neq in Hquiet.
    eexists _, _. split; [eapply add_on_disk_quiet; eassumption|]. cbn.
    split; [now apply list_lookup_insert_eq|]. do 3 (split; [reflexivity|]).
    split.
    + rewrite list_lookup_alter_eq, Hws. reflexivity.
    + exists h, (stored_item (_file_last_key e + 1) v db).
      rewrite lookup_insert_eq. cbn. rewrite lookup_insert_eq. auto.
  - destruct Hready as (l & vs & Hl & Hvs).
    eexists _, _. split; [eapply add_in_memory; eassumption|]. cbn.
    split; [now apply list_lookup_insert_eq|]. do 3 (split; [reflexivity|]).
    split.
    + rewrite list_lookup_alter_eq, Hws. reflexivity.
    + exists l, vs. rewrite list_lookup_alter_eq, Hvs. auto.
Qed.

Lemma torch_eq_sym (a b : tensor) : torch_eq a b = true -> torch_eq b a = true.
Proof.
  rewrite !torch_eq_true. intros [[-> Hn]|[Ha Hb]]; [left|right]; split; auto.
Qed.

Lemma torch_eq_trans (a b c : tensor) :
  torch_eq a b = true -> torch_eq b c = true -> torch_eq a c = true.
Proof.
  rewrite !torch_eq_true.
  intros [[-> Hn]|[Ha Hb]] [[-> Hn']|[Hb' Hc]]; auto.
Qed.

Lemma torch_eq_ordinary (a b : tensor) :
  is_zero a = false -> torch_eq a b = true -> a = b.
Proof.
  intros Hz. rewrite torch_eq_true. intros [[-> _]|[Ha _]]; [reflexivity|congruence].
Qed.

Lemma torch_eq_refl (a : tensor) : is_nan a = false -> torch_eq a a = true.
Proof. intros Hn. apply torch_eq_true. left. now split. Qed.

Lemma uniform_pairwise (ws : list tensor) :
  ws <> [] ->
  forallb (fun w => torch_eq w (List.hd tensor_zero ws)) ws = true <->
  forall a b, a ∈ ws -> b ∈ ws -> torch_eq a b = true.
Proof.
  intros Hne. rewrite forallb_forall. split.
  - intros Hall a b Ha Hb. apply list_elem_of_In in Ha, Hb.
    eapply torch_eq_trans; [apply Hall, Ha|]. apply torch_eq_sym, Hall, Hb.
  - intros Hpair w Hw. apply list_elem_of_In in Hw. apply Hpair; [exact Hw|].
    destruct ws as [|f ws']; [congruence|]. cbn. apply list_elem_of_here.
Qed.

Lemma ordinary_pairwise (ws : list tensor) :
  Forall (fun w => is_zero w = false /\ is_nan w = false) ws ->
  (forall a b, a ∈ ws -> b ∈ ws -> torch_eq a b = true) <->
  (forall a b, a ∈ ws -> b ∈ ws -> a = b).
Proof.
  intros Hord. rewrite Forall_forall in Hord. split.
  - intros Hpair a b Ha Hb. apply torch_eq_ordinary; [apply Hord, Ha | now apply Hpair].
  - intros Hpair a b Ha Hb. rewrite (Hpair a b Ha Hb). apply torch_eq_refl, Hord, Hb.
Qed.


(** Claim C6, as amended: after [finalize] of a collection with at least
    one log-weight, the [uniform] flag is true exactly when all log-weights
    compare equal under IEEE equality ([torch.eq]).  For log-weights that
    are neither a zero nor NaN this is the same as all of them being
    identical. *)
Theorem uniform_iff_all_ieee_equal (s : st) self e ws :
  objects s !! self = Some e ->
  weight_lists s !! _log_weights e = Some ws ->
  ws <> [] ->
  storage_ready s e ->
  exists s' e',
    Empirical.finalize self s = (Ret tt, s') /\
    objects s' !! self = Some e' /\
    _finalized e' = true /\
    weight_lists s' !! _log_weights e' = Some ws /\
    (_uniform_weights e' = true <->
     forall a b, a ∈ ws -> b ∈ ws -> torch_eq a b = true) /\
    (Forall (fun w => is_zero w = false /\ is_nan w = false) ws ->
     (_uniform_weights e' = true <-> forall a b, a ∈ ws -> b ∈ ws -> a = b)).
Proof.
  intros He Hws Hne Hready.
  destruct (finalize_ready s self e ws He Hws Hne Hready)
    as (s' & Hfin & He' & Hwl & _ & _).
  exists s', (finalized_of ws e). split; [exact Hfin|]. split; [exact He'|].
  split; [reflexivity|]. split; [cbn; now rewrite Hwl|].
  cbn [finalized_of _uniform_weights set_finalized set_length set_uniform_weights].
  split.
  - now apply uniform_pairwise.
  - intros Hord. rewrite <- (ordinary_pairwise ws Hord). now apply uniform_pairwise.
Qed.

(** Claim C10: the reported length changes in [finalize] only.  After a
    [finalize] the length is the number of log-weights; after a following
    [add] that does not end the sync countdown (so runs no [finalize]) the
    length is still that number, although one more log-weight and one more
    value are stored. *)
Theorem length_is_as_of_last_finalize (s : st) self e ws v lw w :
  objects s !! self = Some e ->
  weight_lists s !! _log_weights e = Some ws ->
  ws <> [] ->
  storage_ready s e ->
  countdown_ends e = false ->
  exists s1 e1 s2 e2,
    Empirical.finalize self s = (Ret tt, s1) /\
    objects s1 !! self = Some e1 /\
    Empirical.__len__ self s1 = (Ret (length ws), s1) /\
    Empirical.add self v lw w s1 = (Ret tt, s2) /\
    objects s2 !! self = Some e2 /\
    Empirical.__len__ self s2 = (Ret (length ws), s2) /\
    weight_lists s2 !! _log_weights e2 = Some (ws ++ [weight_arg lw w]) /\
    value_stored s1 s2 e1 e2 v.
Proof.
  intros He Hws Hne Hready Hquiet.
  destruct (finalize_ready s self e ws He Hws Hne Hready)
    as (s1 & Hfin & He1 & Hwl & _ & Hready1).
  assert (Hws1 : weight_lists s1 !! _log_weights (finalized_of ws e) = Some ws)
    by (cbn; now rewrite Hwl).
  destruct (add_ready_quiet s1 self (finalized_of ws e) ws v lw w He1 Hws1 Hready1 Hquiet)
    as (s2 & e2 & Hadd & He2 & Hlen & _ & Hlw & Hws2 & Hstored).
  exists s1, (finalized_of ws e), s2, e2.
  split; [exact Hfin|]. split; [exact He1|].
  split; [now rewrite (len_eq _ _ _ He1)|].
  split; [exact Hadd|]. split; [exact He2|].
  split; [rewrite (len_eq _ _ _ He2), Hlen; reflexivity|].
  split; [exact Hws2|exact Hstored].
Qed.

Lemma check_finalized_raises (s : st) self e :
  objects s !! self = Some e ->
  _finalized e = false ->
  Empirical._check_finalized self s = (Raise (RuntimeError msg_not_finalized), s).
Proof.
  intros He Hf. unfold Empirical._check_finalized, get_self, bind, raise.
  now rewrite He, Hf.
Qed.

Lemma check_finalized_passes (s : st) self e :
  objects s !! self = Some e ->
  _finalized e = true ->
  Empirical._check_finalized self s = (Ret tt, s).
Proof.
  intros He Hf. unfold Empirical._check_finalized, get_self, bind, ret.
  now rewrite He, Hf.
Qed.

(** On an [unread] instance the mean, the variance, the mode and the
    effective sample size end with the error of a collection that is not
    finalized, and the minimum and the maximum with the error for values
    that are not scalars.  The store is left as it was. *)
Lemma statistics_of_unread (s : st) self e :
  objects s !! self = Some e ->
  unread e ->
  Empirical.mean self s = (Raise (RuntimeError msg_not_finalized), s) /\
  Empirical.variance self s = (Raise (RuntimeError msg_not_finalized), s) /\
  Empirical.mode self s = (Raise (RuntimeError msg_not_finalized), s) /\
  Empirical.effective_sample_size self s = (Raise (RuntimeError msg_not_finalized), s) /\
  Empirical.min self s = (Raise (RuntimeError msg_min_max), s) /\
  Empirical.max self s = (Raise (RuntimeError msg_min_max), s) /\
  kind_of (RuntimeError msg_not_finalized) = Some NotFinalized /\
  kind_of (RuntimeError msg_min_max) = Some NotScalar.
Proof.
  intros He (Hf & Hmean & Hvar & Hmin & Hmax).
  assert (Hcheck := check_finalized_raises s self e He Hf).
  assert (Hexp : forall func, Empirical.expectation self func s =
                   (Raise (RuntimeError msg_not_finalized), s)).
  { intros func. unfold Empirical.expectation. now rewrite (bind_raise _ _ _ _ _ Hcheck). }
  assert (Hm : Empirical.mean self s = (Raise (RuntimeError msg_not_finalized), s)).
  { unfold Empirical.mean, get_self, bind. rewrite He, Hmean. now rewrite Hexp. }
  assert (Hfind : Empirical._find_min_max self s = (Raise (RuntimeError msg_min_max), s)).
  { unfold Empirical._find_min_max, try_except, Empirical.get_values.
    now rewrite (bind_raise _ _ _ _ _ (bind_raise _ _ _ _ _ Hcheck)). }
  repeat split.
  - exact Hm.
  - unfold Empirical.variance, get_self. unfold bind at 1. rewrite He, Hvar.
    now rewrite (bind_raise _ _ _ _ _ Hm).
  - unfold Empirical.mode. now rewrite (bind_raise _ _ _ _ _ Hcheck).
  - unfold Empirical.effective_sample_size. now rewrite (bind_raise _ _ _ _ _ Hcheck).
  - unfold Empirical.min, get_self. unfold bind at 1. rewrite He, Hmin.
    now rewrite (bind_raise _ _ _ _ _ Hfind).
  - unfold Empirical.max, get_self. unfold bind at 1. rewrite He, Hmax.
    now rewrite (bind_raise _ _ _ _ _ Hfind).
Qed.

Lemma getitem_nat {A} (xs : list A) i x (s : st) :
  xs !! i = Some x -> Empirical.getitem xs (Z.of_nat i) s = (Ret x, s).
Proof.
  intros Hi. assert (Hlt := lookup_lt_Some _ _ _ Hi).
  unfold Empirical.getitem, index.
  assert (H0 : (0 <=? Z.of_nat i) = true) by (apply Z.leb_le; lia).
  assert (H1 : (Z.of_nat i <? Z.of_nat (length xs)) = true) by (apply Z.ltb_lt; lia).
  rewrite H0, H1. cbn. rewrite Nat2Z.id, Hi. reflexivity.
Qed.

Lemma get_value_of_collection (s : st) self vs ws i v :
  collection s self vs ws ->
  vs !! i = Some v ->
  Empirical._get_value self (Z.of_nat i) s = (Ret v, s).
Proof.
  intros (e & He & _ & _ & _ & _ & _ & Hstore) Hi.
  unfold Empirical._get_value, get_self, bind. rewrite He.
  destruct (_on_disk e).
  - destruct Hstore as (h & db & Hh & Hopen & Hdb & Hitems).
    assert (Hneg : (Z.of_nat i <? 0) = false) by (apply Z.ltb_ge; lia).
    rewrite Hneg. unfold shelf_attr. rewrite Hh. unfold ret at 1.
    unfold shelf_get_item, shelf_db_of, bind. rewrite Hopen, Hdb.
    now rewrite (Hitems i v Hi).
  - destruct Hstore as (l & Hl & Hvs).
    unfold values_attr. rewrite Hl. unfold ret at 1.
    unfold read_value_list. rewrite Hvs. now apply getitem_nat.
Qed.

Lemma get_log_weight_of_collection (s : st) self vs ws i w :
  collection s self vs ws ->
  ws !! i = Some w ->
  Empirical._get_log_weight self (Z.of_nat i) s = (Ret w, s).
Proof.
  intros (e & He & _ & _ & _ & Hcat & _) Hi.
  unfold Empirical._get_log_weight, get_self, bind. rewrite He.
  unfold Empirical.categorical_attr. rewrite Hcat. unfold ret at 1. cbn.
  now apply getitem_nat.
Qed.

(** A collection stays what it is when the heaps grow at their ends, the
    files stay and other random draws are made. *)
Lemma collection_extend (s s' : st) self vs ws os vls wls :
  collection s self vs ws ->
  objects s' = objects s ++ os ->
  value_lists s' = value_lists s ++ vls ->
  weight_lists s' = weight_lists s ++ wls ->
  disk s' = disk s ->
  collection s' self vs ws.
Proof.
  intros (e & He & Hf & Hlen & Hw & Hcat & Hws & Hstore) Ho Hv Hwl Hd.
  exists e. rewrite Ho, Hwl.
  split; [now apply lookup_app_l_Some|]. do 4 (split; [assumption|]).
  split; [now apply lookup_app_l_Some|].
  destruct (_on_disk e).
  - destruct Hstore as (h & db & ? & ? & ? & ?). exists h, db. rewrite Hd. auto.
  - destruct Hstore as (l & ? & ?). exists l. rewrite Hv.
    split; [assumption|]. now apply lookup_app_l_Some.
Qed.

Lemma collection_draws (s : st) self vs ws n :
  collection s self vs ws -> collection (set_draws n s) self vs ws.
Proof.
  intros Hc. apply (collection_extend s _ self vs ws [] [] []); cbn;
    rewrite ?app_nil_r; auto.
Qed.

(** The collection that [__init__] builds in memory from a batch. *)
Lemma init_in_memory_collection (s : st) values lw w t nm :
  values <> [] ->
  length (batch_weights values lw w) = length values ->
  exists s',
    Empirical.__init__ (Some values) lw w None t nm s = (Ret (length (objects s)), s') /\
    objects s' = objects s ++ [finalized_of (batch_weights values lw w) (new_in_memory s nm)] /\
    value_lists s' = value_lists s ++ [values] /\
    weight_lists s' = weight_lists s ++ [batch_weights values lw w] /\
    disk s' = disk s /\ draws s' = draws s /\
    collection s' (length (objects s)) values (batch_weights values lw w).
Proof.
  intros Hne Hlen. eexists. split; [now apply init_in_memory|].
  cbn. do 5 (split; [reflexivity|]).
  exists (finalized_of (batch_weights values lw w) (new_in_memory s nm)).
  split; [apply lookup_snoc_new|]. cbn.
  do 4 (split; [auto|]). split; [apply lookup_snoc_new|].
  exists (length (value_lists s)). split; [reflexivity|apply lookup_snoc_new].
Qed.

(** [__init__] with an empty batch: nothing is added and nothing
    finalized. *)
Lemma init_in_memory_empty (s : st) lw w t nm :
  Empirical.__init__ (Some []) lw w None t nm s =
    (Ret (length (objects s)),
     mkStore (objects s ++ [new_in_memory s nm]) (value_lists s ++ [[]])
       (weight_lists s ++ [[]]) (disk s) (draws s)).
Proof. reflexivity. Qed.

Lemma kept_pairs_cons (func : V -> bool) v w vs ws :
  kept_pairs func (v :: vs) (w :: ws) =
  if func v then (v, w) :: kept_pairs func vs ws else kept_pairs func vs ws.
Proof. reflexivity. Qed.

Lemma kept_pairs_values (func : V -> bool) vs :
  forall ws, length ws = length vs ->
  (kept_pairs func vs ws).*1 = List.filter func vs.
Proof.
  induction vs as [|v vs IH]; intros [|w ws] Hlen; try discriminate; [reflexivity|].
  rewrite kept_pairs_cons. cbn [List.filter].
  destruct (func v); cbn; [f_equal|]; apply IH; cbn in Hlen; lia.
Qed.

Lemma filter_loop_spec (s : st) self vs ws func :
  collection s self vs ws ->
  forall sufv sufw a fv fw,
  length sufw = length sufv ->
  (forall k v, sufv !! k = Some v -> vs !! (a + k)%nat = Some v) ->
  (forall k w, sufw !! k = Some w -> ws !! (a + k)%nat = Some w) ->
  Empirical.filter_loop self func (seq a (length sufv)) fv fw s =
    (Ret (fv ++ (kept_pairs func sufv sufw).*1,
          fw ++ (kept_pairs func sufv sufw).*2), s).
Proof.
  intros Hc. induction sufv as [|v sufv IH]; intros [|w sufw] a fv fw Hlen Hv Hw;
    try discriminate.
  - cbn. now rewrite !app_nil_r.
  - cbn [length seq Empirical.filter_loop].
    assert (Hva : vs !! a = Some v) by (rewrite <- (Nat.add_0_r a); now apply Hv).
    assert (Hwa : ws !! a = Some w) by (rewrite <- (Nat.add_0_r a); now apply Hw).
    rewrite (bind_ret _ _ _ _ _ (get_value_of_collection s self vs ws a v Hc Hva)).
    rewrite kept_pairs_cons.
    assert (Hv' : forall k x, sufv !! k = Some x -> vs !! (S a + k)%nat = Some x).
    { intros k x Hk. replace (S a + k)%nat with (a + S k)%nat by lia. now apply Hv. }
    assert (Hw' : forall k x, sufw !! k = Some x -> ws !! (S a + k)%nat = Some x).
    { intros k x Hk. replace (S a + k)%nat with (a + S k)%nat by lia. now apply Hw. }
    assert (Hlen' : length sufw = length sufv) by (cbn in Hlen; lia).
    destruct (func v).
    + rewrite (bind_ret _ _ _ _ _ (get_log_weight_of_collection s self vs ws a w Hc Hwa)).
      rewrite (IH sufw (S a) _ _ Hlen' Hv' Hw'). cbn. now rewrite <- !app_assoc.
    + now rewrite (IH sufw (S a) _ _ Hlen' Hv' Hw').
Qed.

(** What [filter] returns for a finalized collection that is not empty:
    a new in-memory instance with the values that satisfy the predicate
    and, for each, the logit of its position. *)
Lemma filter_of_collection (s : st) self vs ws func :
  collection s self vs ws ->
  vs <> [] ->
  Empirical.filter self func s =
    Empirical.__init__ (Some (kept_pairs func vs ws).*1)
      (Some (kept_pairs func vs ws).*2) None None
      Empirical.default_timeout Empirical.default_name s.
Proof.
  intros Hc Hne.
  assert (Hc' := Hc). destruct Hc' as (e & He & Hf & Hlen & Hwlen & _).
  unfold Empirical.filter.
  rewrite (bind_ret _ _ _ _ _ (check_finalized_passes s self e He Hf)).
  unfold get_self at 1. unfold bind at 1. rewrite He.
  assert (Hz : (_length e =? 0)%nat = false).
  { apply Nat.eqb_neq. rewrite Hlen. destruct vs; [congruence|cbn; lia]. }
  rewrite Hz. unfold range. rewrite Hlen.
  rewrite (bind_ret _ _ _ _ _
             (filter_loop_spec s self vs ws func Hc vs ws 0%nat [] [] Hwlen
                (fun k v Hk => Hk) (fun k w Hk => Hk))).
  reflexivity.
Qed.

Lemma filter_of_empty (s : st) self e func :
  objects s !! self = Some e ->
  _finalized e = true ->
  _length e = 0%nat ->
  Empirical.filter self func s = (Ret self, s).
Proof.
  intros He Hf Hlen. unfold Empirical.filter.
  rewrite (bind_ret _ _ _ _ _ (check_finalized_passes s self e He Hf)).
  unfold get_self, bind, ret. now rewrite He, Hlen.
Qed.

Lemma filter_result (s : st) self vs ws func :
  collection s self vs ws ->
  vs <> [] ->
  exists s' e' l,
    Empirical.filter self func s = (Ret (length (objects s)), s') /\
    objects s' !! length (objects s) = Some e' /\
    _on_disk e' = false /\
    _values e' = Some l /\
    value_lists s' !! l = Some (List.filter func vs) /\
    weight_lists s' !! _log_weights e' = Some (kept_pairs func vs ws).*2 /\
    _finalized e' = negb (forallb (fun v => negb (func v)) vs) /\
    collection s' self vs ws /\
    (List.filter func vs <> [] ->
     collection s' (length (objects s)) (List.filter func vs) (kept_pairs func vs ws).*2).
Proof.
  intros Hc Hne.
  assert (Hwlen : length ws = length vs) by (destruct Hc as (e & _ & _ & _ & Hw & _); exact Hw).
  rewrite (filter_of_collection s self vs ws func Hc Hne).
  assert (Hvals := kept_pairs_values func vs ws Hwlen).
  assert (Hfin : forall l : list V,
            l = List.filter func vs ->
            (match l with [] => false | _ => true end) =
            negb (forallb (fun v => negb (func v)) vs)).
  { intros l ->. clear. induction vs as [|v vs IH]; [reflexivity|].
    cbn. destruct (func v); cbn; [reflexivity|exact IH]. }
  rewrite Hvals.
  destruct (List.filter func vs) as [|k ks] eqn:Hk.
  - rewrite init_in_memory_empty.
    eexists _, _, (length (value_lists s)). split; [reflexivity|]. cbn.
    split; [apply lookup_snoc_new|]. split; [reflexivity|]. split; [reflexivity|].
    split; [apply lookup_snoc_new|].
    split.
    { assert (Hnil : (kept_pairs func vs ws).*2 = []).
      { destruct (kept_pairs func vs ws); [reflexivity|discriminate]. }
      rewrite Hnil. apply lookup_snoc_new. }
    split; [now rewrite <- (Hfin [] eq_refl)|].
    split.
    + eapply collection_extend; [exact Hc| | | |]; reflexivity.
    + intros Hx. congruence.
  - destruct (init_in_memory_collection s (k :: ks)
                (Some (kept_pairs func vs ws).*2) None
                Empirical.default_timeout Empirical.default_name)
      as (s' & Hinit & Ho & Hv & Hw & Hd & _ & Hnew).
    { discriminate. }
    { cbn [batch_weights]. rewrite <- Hvals. now rewrite !length_fmap. }
    cbn [batch_weights] in *.
    exists s', (finalized_of (kept_pairs func vs ws).*2 (new_in_memory s Empirical.default_name)),
      (length (value_lists s)).
    split; [exact Hinit|]. rewrite Ho, Hv, Hw.
    split; [apply lookup_snoc_new|]. split; [reflexivity|]. split; [reflexivity|].
    split; [apply lookup_snoc_new|].
    split; [apply lookup_snoc_new|].
    split; [cbn; now rewrite <- (Hfin (k :: ks) eq_refl)|].
    split.
    + eapply collection_extend; [exact Hc|exact Ho|exact Hv|exact Hw|exact Hd].
    + intros _. exact Hnew.
Qed.

Lemma reads_keeps {A} (m : M st A) : reads m -> keeps m.
Proof. intros Hm s Hs. unfold sound. now rewrite Hm. Qed.

Lemma reads_ret {A} (a : A) : reads (ret (S:=st) a).
Proof. intros s. reflexivity. Qed.

Lemma reads_raise {A} x : reads (raise (S:=st) (A:=A) x).
Proof. intros s. reflexivity. Qed.

Lemma reads_bind {A B} (m : M st A) (k : A -> M st B) :
  reads m -> (forall a, reads (k a)) -> reads (bind m k).
Proof.
  intros Hm Hk s. unfold bind. specialize (Hm s).
  destruct (m s) as [[a|x] s1]; cbn in *.
  - now rewrite Hk.
  - exact Hm.
Qed.

Lemma reads_try_except {A} (m h : M st A) :
  reads m -> reads h -> reads (try_except m h).
Proof.
  intros Hm Hh s. unfold try_except. specialize (Hm s).
  destruct (m s) as [[a|x] s1]; cbn in *.
  - exact Hm.
  - now rewrite Hh.
Qed.

Lemma keeps_ret {A} (a : A) : keeps (ret (S:=st) a).
Proof. intros s Hs. exact Hs. Qed.

Lemma keeps_raise {A} x : keeps (raise (S:=st) (A:=A) x).
Proof. intros s Hs. exact Hs. Qed.

Lemma keeps_bind {A B} (m : M st A) (k : A -> M st B) :
  keeps m -> (forall a, keeps (k a)) -> keeps (bind m k).
Proof.
  intros Hm Hk s Hs. unfold bind. specialize (Hm s Hs).
  destruct (m s) as [[a|x] s1]; cbn in *.
  - now apply Hk.
  - exact Hm.
Qed.

Lemma keeps_try_except {A} (m h : M st A) :
  keeps m -> keeps h -> keeps (try_except m h).
Proof.
  intros Hm Hh s Hs. unfold try_except. specialize (Hm s Hs).
  destruct (m s) as [[a|x] s1]; cbn in *.
  - exact Hm.
  - now apply Hh.
Qed.

Lemma keeps_bind_self {B} self (k : Emp -> M st B) :
  (forall e, unread_when_empty e -> keeps (k e)) -> keeps (bind (get_self self) k).
Proof.
  intros Hk s Hs. unfold bind, get_self.
  destruct (objects s !! self) as [e|] eqn:He; [|exact Hs].
  apply Hk; [|exact Hs].
  exact (proj1 (Forall_lookup _ _) Hs _ _ He).
Qed.

Lemma keeps_update self (f : Emp -> Emp) :
  (forall e, unread_when_empty e -> unread_when_empty (f e)) ->
  keeps (update_self self f).
Proof.
  intros Hf s Hs. unfold update_self, modify, sound. cbn.
  apply Forall_alter; [exact Hs|]. intros e _. now apply Hf.
Qed.

Lemma keeps_new_object (e : Emp) : unread_when_empty e -> keeps (new_object e).
Proof.
  intros He s Hs. unfold new_object, sound. cbn.
  apply Forall_app. split; [exact Hs|]. now constructor.
Qed.

Lemma keeps_for_each {A} (xs : list A) (body : A -> M st unit) :
  (forall x, keeps (body x)) -> keeps (for_each xs body).
Proof.
  intros Hb. induction xs as [|x xs IH]; cbn.
  - apply keeps_ret.
  - apply keeps_bind; [apply Hb|intros _; exact IH].
Qed.

Lemma reads_for_each {A} (xs : list A) (body : A -> M st unit) :
  (forall x, reads (body x)) -> reads (for_each xs body).
Proof.
  intros Hb. induction xs as [|x xs IH]; cbn.
  - apply reads_ret.
  - apply reads_bind; [apply Hb|intros _; exact IH].
Qed.

Lemma reads_comprehension {A B} (xs : list A) (f : A -> M st B) :
  (forall x, reads (f x)) -> reads (comprehension xs f).
Proof.
  intros Hf. induction xs as [|x xs IH]; cbn.
  - apply reads_ret.
  - apply reads_bind; [apply Hf|intros y].
    apply reads_bind; [exact IH|intros ys; apply reads_ret].
Qed.

Lemma reads_accumulate indices (term : nat -> M st Q) acc :
  (forall i, reads (term i)) -> reads (Empirical.accumulate indices term acc).
Proof.
  intros Ht. revert acc. induction indices as [|i rest IH]; intros acc; cbn.
  - apply reads_ret.
  - apply reads_bind; [apply Ht|intros t; apply IH].
Qed.

(** *** Computations that leave the instances alone *)

Ltac reads_prim :=
  let s := fresh "s" in
  intros s; unfold_prims; cbn; repeat (case_match; cbn); reflexivity.

Lemma reads_get_self self : reads (V:=V) (get_self self).
Proof. reads_prim. Qed.
Lemma reads_read_weight_list l : reads (V:=V) (read_weight_list l).
Proof. reads_prim. Qed.
Lemma reads_read_value_list l : reads (V:=V) (read_value_list l).
Proof. reads_prim. Qed.
Lemma reads_append_value l v : reads (V:=V) (append_value l v).
Proof. reads_prim. Qed.
Lemma reads_append_weight l w : reads (V:=V) (append_weight l w).
Proof. reads_prim. Qed.
Lemma reads_values_attr (e : Emp) : reads (values_attr e).
Proof. reads_prim. Qed.
Lemma reads_shelf_attr (e : Emp) : reads (shelf_attr e).
Proof. reads_prim. Qed.
Lemma reads_new_value_list : reads (V:=V) new_value_list.
Proof. reads_prim. Qed.
Lemma reads_new_weight_list ws : reads (V:=V) (new_weight_list ws).
Proof. reads_prim. Qed.
Lemma reads_shelve_open f : reads (V:=V) (shelve_open f).
Proof. reads_prim. Qed.
Lemma reads_shelf_db_of h : reads (V:=V) (shelf_db_of h).
Proof. reads_prim. Qed.
Lemma reads_shelf_write h f : reads (V:=V) (shelf_write h f).
Proof.
  unfold shelf_write. apply reads_bind; [apply reads_shelf_db_of|].
  intros db s. reflexivity.
Qed.
Lemma reads_shelf_set_name h n : reads (V:=V) (shelf_set_name h n).
Proof. apply reads_shelf_write. Qed.
Lemma reads_shelf_set_log_weights h ws : reads (V:=V) (shelf_set_log_weights h ws).
Proof. apply reads_shelf_write. Qed.
Lemma reads_shelf_set_last_key h k : reads (V:=V) (shelf_set_last_key h k).
Proof. apply reads_shelf_write. Qed.
Lemma reads_shelf_set_item h i (v : V) : reads (shelf_set_item h i v).
Proof. apply reads_shelf_write. Qed.
Lemma reads_shelf_get_item h i : reads (V:=V) (shelf_get_item h i).
Proof.
  unfold shelf_get_item. apply reads_bind; [apply reads_shelf_db_of|].
  intros db. destruct (db_items db !! i); [apply reads_ret|apply reads_raise].
Qed.
Lemma reads_shelf_sync h : reads (V:=V) (shelf_sync h).
Proof.
  unfold shelf_sync. destruct (shelf_closed h);
    [apply reads_ret|apply reads_shelf_write].
Qed.
Lemma reads_shelf_close h : reads (V:=V) (shelf_close h).
Proof.
  unfold shelf_close. destruct (shelf_closed h); [apply reads_ret|].
  apply reads_bind; [apply reads_shelf_sync|intros _; apply reads_ret].
Qed.
Lemma reads_index {A} (xs : list A) i : reads (V:=V) (index xs i).
Proof. reads_prim. Qed.
Lemma reads_getitem {A} (xs : list A) i : reads (Empirical.getitem (V:=V) xs i).
Proof.
  unfold Empirical.getitem. repeat case_match;
    first [apply reads_index | apply reads_raise].
Qed.
Lemma reads_categorical_attr (e : Emp) : reads (Empirical.categorical_attr e).
Proof. unfold Empirical.categorical_attr. reads_prim. Qed.
Lemma reads_next_draw : reads (Empirical.next_draw (V:=V)).
Proof. intros s. reflexivity. Qed.

Ltac reads_leaf :=
  first
    [ apply reads_ret | apply reads_raise | apply reads_get_self
    | apply reads_read_weight_list | apply reads_read_value_list
    | apply reads_append_value | apply reads_append_weight
    | apply reads_values_attr | apply reads_shelf_attr
    | apply reads_new_value_list | apply reads_new_weight_list
    | apply reads_shelve_open | apply reads_shelf_db_of
    | apply reads_shelf_set_name | apply reads_shelf_set_log_weights
    | apply reads_shelf_set_last_key | apply reads_shelf_set_item
    | apply reads_shelf_get_item | apply reads_shelf_sync
    | apply reads_shelf_close | apply reads_index | apply reads_getitem
    | apply reads_categorical_attr | apply reads_next_draw
    | solve [auto with effects] ].

Ltac reads_step :=
  lazymatch goal with
  | |- reads (bind _ _) => apply reads_bind; [|intros ?]
  | |- reads (try_except _ _) => apply reads_try_except
  | |- reads (for_each _ _) => apply reads_for_each; intros ?
  | |- reads (comprehension _ _) => apply reads_comprehension; intros ?
  | |- reads (Empirical.accumulate _ _ _) => apply reads_accumulate; intros ?
  | |- reads (if ?b then _ else _) => destruct b
  | |- reads (match ?x with _ => _ end) => destruct x
  | |- reads _ => reads_leaf
  end.

Ltac reads_tac := repeat reads_step.

Lemma reads_random_randint a b : reads (Empirical.random_randint (V:=V) a b).
Proof. unfold Empirical.random_randint. reads_tac. Qed.

Lemma reads_categorical_sample c : reads (Empirical.categorical_sample (V:=V) c).
Proof. unfold Empirical.categorical_sample. reads_tac. Qed.

Lemma reads_len self : reads (Empirical.__len__ (V:=V) self).
Proof. unfold Empirical.__len__. reads_tac. Qed.

Lemma reads_check_finalized self : reads (Empirical._check_finalized (V:=V) self).
Proof. unfold Empirical._check_finalized. reads_tac. Qed.

Lemma reads_get_value self i : reads (Empirical._get_value (V:=V) self i).
Proof. unfold Empirical._get_value. reads_tac. Qed.

Lemma reads_get_log_weight self i : reads (Empirical._get_log_weight (V:=V) self i).
Proof. unfold Empirical._get_log_weight. reads_tac. Qed.

#[local] Hint Resolve reads_random_randint reads_categorical_sample reads_len
  reads_check_finalized reads_get_value reads_get_log_weight : effects.

Lemma reads_get_values self : reads (Empirical.get_values (V:=V) self).
Proof. unfold Empirical.get_values. reads_tac. Qed.

Lemma reads_sample self lo hi : reads (Empirical.sample (V:=V) self lo hi).
Proof. unfold Empirical.sample. reads_tac. Qed.

Lemma reads_expectation self func : reads (Empirical.expectation self func).
Proof. unfold Empirical.expectation. reads_tac. Qed.

Lemma reads_filter_loop self func indices vs ws :
  reads (Empirical.filter_loop (V:=V) self func indices vs ws).
Proof.
  revert vs ws. induction indices as [|i rest IH]; intros vs ws; cbn.
  - apply reads_ret.
  - apply reads_bind; [apply reads_get_value|intros value].
    destruct (func value); [|apply IH].
    apply reads_bind; [apply reads_get_log_weight|intros lw; apply IH].
Qed.

Lemma reads_getattr_on_disk o : reads (Empirical.getattr_on_disk (V:=V) o).
Proof. unfold Empirical.getattr_on_disk. reads_tac. Qed.

Lemma reads_as_empirical o : reads (Empirical.as_empirical (V:=V) o).
Proof. unfold Empirical.as_empirical. reads_tac. Qed.

#[local] Hint Resolve reads_get_values reads_sample reads_expectation
  reads_filter_loop reads_getattr_on_disk reads_as_empirical : effects.

Lemma reads_combine_check b o : reads (Empirical.combine_check (V:=V) b o).
Proof. unfold Empirical.combine_check. reads_tac. Qed.

Lemma reads_combine_in_memory n dists vs ws :
  reads (Empirical.combine_in_memory (V:=V) n dists vs ws).
Proof.
  revert vs ws. induction dists as [|d rest IH]; intros vs ws; cbn.
  - apply reads_ret.
  - apply reads_bind; [apply reads_as_empirical|intros e].
    destruct (negb (_length e =? n)%nat); [apply reads_raise|].
    reads_tac.
Qed.

#[local] Hint Resolve reads_combine_check reads_combine_in_memory : effects.

(** *** Computations that keep zero-length instances unread *)

Lemma keeps_bind_ret {A B} (a : A) (k : A -> M st B) :
  keeps (k a) -> keeps (bind (ret a) k).
Proof. intros Hk s Hs. exact (Hk s Hs). Qed.

Lemma keeps_bind_raise {A B} x (k : A -> M st B) : keeps (bind (raise x) k).
Proof. intros s Hs. exact Hs. Qed.

Ltac setter :=
  let e := fresh "e" in
  let He := fresh "He" in
  let Hl := fresh "Hl" in
  intros e He; destruct e;
  first
    [ exact He
    | intros Hl; destruct (He Hl) as (? & ? & ? & ? & ?);
      repeat split; assumption || reflexivity ].

Ltac keeps_step :=
  lazymatch goal with
  | |- keeps (bind (get_self _) _) => apply keeps_bind_self; intros ? ?
  | |- keeps (bind _ _) => apply keeps_bind; [|intros ?]
  | |- keeps (try_except _ _) => apply keeps_try_except
  | |- keeps (for_each _ _) => apply keeps_for_each; intros ?
  | |- keeps (update_self _ _) => apply keeps_update; setter
  | |- keeps (new_object _) =>
      apply keeps_new_object;
      first [assumption | intros _; repeat split; reflexivity]
  | |- keeps (if ?b then _ else _) => destruct b
  | |- keeps (match ?x with _ => _ end) => destruct x
  | |- keeps _ =>
      first [solve [auto with effects] | apply reads_keeps; reads_tac]
  end.

Ltac keeps_tac := repeat keeps_step.

Lemma finalized_positive (s : st) self :
  sound s -> finalized_at self s -> positive_at self s.
Proof.
  intros Hs (e & He & Hf) e' He' Hl.
  rewrite He in He'. injection He' as <-.
  destruct (proj1 (Forall_lookup _ _) Hs _ _ He Hl) as (Hf' & _). congruence.
Qed.

Lemma checked_ret {A} self (k : M st A) (s : st) a :
  fst ((Empirical._check_finalized self ;; k) s) = Ret a -> finalized_at self s.
Proof.
  unfold Empirical._check_finalized. unfold bind, get_self, ret, raise.
  destruct (objects s !! self) as [e|] eqn:He; [|cbn; discriminate].
  destruct (_finalized e) eqn:Hf; [|cbn; discriminate].
  intros _. now exists e.
Qed.

Lemma kp_ret self {A} (a : A) : keeps_positive self (ret (S:=st) a).
Proof. intros s Hs Hp. now split. Qed.

Lemma kp_raise self {A} x : keeps_positive self (raise (S:=st) (A:=A) x).
Proof. intros s Hs Hp. now split. Qed.

Lemma kp_bind self {A B} (m : M st A) (k : A -> M st B) :
  keeps_positive self m -> (forall a, keeps_positive self (k a)) ->
  keeps_positive self (bind m k).
Proof.
  intros Hm Hk s Hs Hp. unfold bind. specialize (Hm s Hs Hp).
  destruct (m s) as [[a|x] s1]; cbn in *.
  - now apply Hk.
  - exact Hm.
Qed.

Lemma kp_reads self {A} (m : M st A) : reads m -> keeps_positive self m.
Proof.
  intros Hm s Hs Hp. unfold sound, positive_at. rewrite (Hm s). now split.
Qed.

Lemma kp_update self (f : Emp -> Emp) :
  (forall e, _length (f e) = _length e) ->
  keeps_positive self (update_self self f).
Proof.
  intros Hf s Hs Hp. unfold update_self, modify, sound, positive_at. cbn. split.
  - apply Forall_alter; [exact Hs|]. intros e He _ Hl.
    rewrite Hf in Hl. now destruct (Hp e He).
  - intros e'. rewrite list_lookup_alter_eq.
    destruct (objects s !! self) as [e|] eqn:He; [|discriminate].
    cbn. intros [= <-]. rewrite Hf. now apply Hp.
Qed.

Lemma enter_positive self n {A} (k : M st A) :
  n <> 0%nat -> keeps_positive self k ->
  keeps (update_self self (set_length n) ;; k).
Proof.
  intros Hn Hk s Hs. unfold bind, update_self, modify. cbn.
  apply Hk.
  - unfold sound. cbn. apply Forall_alter; [exact Hs|].
    intros e _ _ Hl. destruct e. cbn in Hl. contradiction.
  - intros e'. cbn. rewrite list_lookup_alter_eq.
    destruct (objects s !! self) as [e|]; [|discriminate].
    cbn. intros [= <-]. destruct e. exact Hn.
Qed.

Lemma checked_then self {A B} (m : M st A) (k : A -> M st B) :
  reads m ->
  (forall s a, fst (m s) = Ret a -> finalized_at self s) ->
  (forall a, keeps_positive self (k a)) ->
  keeps (bind m k).
Proof.
  intros Hm Hfin Hk s Hs. unfold bind.
  specialize (Hm s). specialize (Hfin s).
  destruct (m s) as [[a|x] s1]; cbn in *.
  - assert (Hs1 : sound s1) by (unfold sound; now rewrite Hm).
    apply Hk; [exact Hs1|].
    apply finalized_positive; [exact Hs1|].
    destruct (Hfin a eq_refl) as (e & He & Hf). exists e. now rewrite Hm.
  - unfold sound. now rewrite Hm.
Qed.

Ltac same_length := let e := fresh "e" in intros e; destruct e; reflexivity.

Lemma keeps_finalize self : keeps (Empirical.finalize (V:=V) self).
Proof.
  unfold Empirical.finalize.
  apply keeps_bind_self; intros e He.
  apply keeps_bind; [apply reads_keeps, reads_read_weight_list|intros log_weights].
  apply keeps_bind; [apply keeps_update; setter|intros _].
  cbn zeta. unfold Categorical_of_logits. cbn [logits].
  destruct log_weights as [|w ws].
  - apply keeps_bind_raise.
  - apply keeps_bind_ret.
    apply keeps_bind; [apply keeps_update; setter|intros _].
    apply enter_positive; [discriminate|].
    apply kp_bind; [apply kp_reads; reads_tac|intros _].
    apply kp_update. same_length.
Qed.

#[local] Hint Resolve keeps_finalize : effects.

Lemma keeps_add self v lw w : keeps (Empirical.add (V:=V) self v lw w).
Proof. unfold Empirical.add, Empirical.clear_statistics. keeps_tac. Qed.

#[local] Hint Resolve keeps_add : effects.

Lemma keeps_add_sequence self vs lws ws :
  keeps (Empirical.add_sequence (V:=V) self vs lws ws).
Proof. unfold Empirical.add_sequence. keeps_tac. Qed.

#[local] Hint Resolve keeps_add_sequence : effects.

Lemma keeps_init_batch self vs lws ws :
  keeps (Empirical.init_batch (V:=V) self vs lws ws).
Proof. unfold Empirical.init_batch. keeps_tac. Qed.

#[local] Hint Resolve keeps_init_batch : effects.

Lemma keeps_init vs lws ws f t n :
  keeps (Empirical.__init__ (V:=V) vs lws ws f t n).
Proof. unfold Empirical.__init__. keeps_tac. Qed.

#[local] Hint Resolve keeps_init : effects.

Lemma keeps_close self : keeps (Empirical.close (V:=V) self).
Proof. unfold Empirical.close. keeps_tac. Qed.

Lemma keeps_copy self f : keeps (Empirical.copy (V:=V) self f).
Proof. unfold Empirical.copy. keeps_tac. Qed.

Lemma keeps_filter self func : keeps (Empirical.filter (V:=V) self func).
Proof. unfold Empirical.filter. keeps_tac. Qed.

Lemma keeps_resample self n f : keeps (Empirical.resample (V:=V) self n f).
Proof. unfold Empirical.resample. cbn zeta. keeps_tac. Qed.

Lemma keeps_mode self : keeps (Empirical.mode (V:=V) self).
Proof. unfold Empirical.mode. keeps_tac. Qed.

Lemma keeps_effective_sample_size self :
  keeps (Empirical.effective_sample_size (V:=V) self).
Proof. unfold Empirical.effective_sample_size. cbn zeta. keeps_tac. Qed.

Lemma keeps_combine dists f : keeps (Empirical.combine (V:=V) dists f).
Proof. unfold Empirical.combine. keeps_tac. Qed.

Lemma expectation_ret self func (s : st) a :
  fst (Empirical.expectation self func s) = Ret a -> finalized_at self s.
Proof. unfold Empirical.expectation. apply checked_ret. Qed.

Lemma get_values_ret self (s : st) a :
  fst (Empirical.get_values (V:=V) self s) = Ret a -> finalized_at self s.
Proof. unfold Empirical.get_values. apply checked_ret. Qed.

Lemma keeps_mean self : keeps (Empirical.mean self).
Proof.
  unfold Empirical.mean.
  apply keeps_bind_self; intros e He.
  destruct (_mean e); [apply keeps_ret|].
  apply (checked_then self).
  - apply reads_expectation.
  - intros s a. apply expectation_ret.
  - intros m. apply kp_bind; [apply kp_update; same_length|intros _; apply kp_ret].
Qed.

#[local] Hint Resolve keeps_mean : effects.

Lemma keeps_variance self : keeps (Empirical.variance self).
Proof.
  unfold Empirical.variance.
  apply keeps_bind_self; intros e He.
  destruct (_variance e); [apply keeps_ret|].
  apply keeps_bind; [apply keeps_mean|intros m].
  apply (checked_then self).
  - apply reads_expectation.
  - intros s a. apply expectation_ret.
  - intros v. apply kp_bind; [apply kp_update; same_length|intros _; apply kp_ret].
Qed.

Lemma keeps_find_min_max self : keeps (Empirical._find_min_max self).
Proof.
  unfold Empirical._find_min_max.
  apply keeps_try_except; [|apply keeps_raise].
  apply (checked_then self).
  - apply reads_get_values.
  - intros s a. apply get_values_ret.
  - intros values.
    apply kp_bind; [apply kp_reads; reads_tac|intros floats].
    cbn zeta.
    apply kp_bind; [apply kp_reads, reads_getitem|intros lo].
    apply kp_bind; [apply kp_update; same_length|intros _].
    apply kp_bind; [apply kp_reads, reads_getitem|intros hi].
    apply kp_update; same_length.
Qed.

#[local] Hint Resolve keeps_find_min_max : effects.

Lemma keeps_min self : keeps (Empirical.min self).
Proof. unfold Empirical.min. keeps_tac. Qed.

Lemma keeps_max self : keeps (Empirical.max self).
Proof. unfold Empirical.max. keeps_tac. Qed.

(** Every call keeps the instances of length zero unread, whether it
    returns or raises. *)
Lemma keeps_perform (c : call) : keeps (perform c).
Proof.
  destruct c; cbn [perform];
    try (apply keeps_bind; [|intros ?; apply keeps_ret]);
    first
      [ apply keeps_init | apply keeps_close | apply keeps_copy
      | apply keeps_finalize | apply keeps_add | apply keeps_add_sequence
      | apply keeps_filter | apply keeps_resample | apply keeps_mean
      | apply keeps_variance | apply keeps_mode
      | apply keeps_effective_sample_size | apply keeps_find_min_max
      | apply keeps_min | apply keeps_max | apply keeps_combine
      | apply reads_keeps; reads_tac ].
Qed.

Lemma sound_run (calls : list call) (s : st) : sound s -> sound (run s calls).
Proof.
  revert s. induction calls as [|c calls IH]; intros s Hs; [exact Hs|].
  cbn [run foldl]. apply IH. now apply keeps_perform.
Qed.

Lemma sound_no_objects (s : st) : objects s = [] -> sound s.
Proof. intros Ho. unfold sound. rewrite Ho. constructor. Qed.

(** Claim C9, as amended: in a program that starts without instances and
    calls the constructor and the methods in any order, with any arguments,
    a collection of length zero is never finalized and holds no cached
    statistic ([unread]), also after calls that raised; on it the mean, the
    variance, the mode and the effective sample size end with the error of
    a collection that is not finalized, and the minimum and the maximum with
    the error for values that are not scalars.  The store is left as it
    was. *)
Theorem statistics_of_zero_length (s0 : st) (calls : list call) self e :
  objects s0 = [] ->
  objects (run s0 calls) !! self = Some e ->
  _length e = 0%nat ->
  unread e /\
  Empirical.mean self (run s0 calls) =
    (Raise (RuntimeError msg_not_finalized), run s0 calls) /\
  Empirical.variance self (run s0 calls) =
    (Raise (RuntimeError msg_not_finalized), run s0 calls) /\
  Empirical.mode self (run s0 calls) =
    (Raise (RuntimeError msg_not_finalized), run s0 calls) /\
  Empirical.effective_sample_size self (run s0 calls) =
    (Raise (RuntimeError msg_not_finalized), run s0 calls) /\
  Empirical.min self (run s0 calls) =
    (Raise (RuntimeError msg_min_max), run s0 calls) /\
  Empirical.max self (run s0 calls) =
    (Raise (RuntimeError msg_min_max), run s0 calls) /\
  kind_of (RuntimeError msg_not_finalized) = Some NotFinalized /\
  kind_of (RuntimeError msg_min_max) = Some NotScalar.
Proof.
  intros H0. generalize (sound_run calls s0 (sound_no_objects s0 H0)).
  generalize (run s0 calls). intros s Hs He Hl.
  assert (Hu : unread e) by exact (proj1 (Forall_lookup _ _) Hs _ _ He Hl).
  split; [exact Hu|]. exact (statistics_of_unread s self e He Hu).
Qed.

Lemma get_value_in_range (s : st) self vs ws (i : Z) :
  collection s self vs ws ->
  0 <= i < Z.of_nat (length vs) ->
  exists v, Empirical._get_value self i s = (Ret v, s) /\ v ∈ vs.
Proof.
  intros Hc Hi.
  destruct (lookup_lt_is_Some_2 vs (Z.to_nat i)) as [v Hv]; [lia|].
  exists v. split.
  - rewrite <- (Z2Nat.id i) by lia. now apply (get_value_of_collection s self vs ws).
  - eapply list_elem_of_lookup_2. exact Hv.
Qed.

(** [sample()] on a finalized collection that is not empty: one random
    draw, and one of the values. *)
Lemma sample_of_collection (s : st) self vs ws :
  collection s self vs ws ->
  vs <> [] ->
  exists v,
    Empirical.sample self None None s = (Ret v, set_draws (S (draws s)) s) /\
    v ∈ vs.
Proof.
  intros Hc Hne.
  assert (Hc' := collection_draws s self vs ws (S (draws s)) Hc).
  destruct Hc as (e & He & Hf & Hlen & Hwlen & Hcat & _).
  assert (Hpos : 0 < Z.of_nat (length vs)) by (destruct vs; [congruence|cbn; lia]).
  unfold Empirical.sample.
  rewrite (bind_ret _ _ _ _ _ (check_finalized_passes s self e He Hf)).
  unfold get_self at 1. unfold bind at 1. rewrite He.
  destruct (_uniform_weights e).
  - cbn [default]. rewrite Hlen.
    unfold Empirical.random_randint.
    assert (Hb : (Z.of_nat (length vs) - 1 <? 0) = false) by (apply Z.ltb_ge; lia).
    rewrite Hb. unfold Empirical.next_draw, bind, ret.
    apply get_value_in_range with (ws := ws); [exact Hc'|].
    replace (Z.of_nat (length vs) - 1 - 0 + 1) with (Z.of_nat (length vs)) by lia.
    pose proof (Z.mod_pos_bound (Z.of_nat (random_stream (draws s))) (Z.of_nat (length vs)) Hpos).
    lia.
  - unfold Empirical.categorical_attr. rewrite Hcat.
    unfold Empirical.categorical_sample, Empirical.next_draw, bind, ret. cbn [logits].
    apply get_value_in_range with (ws := ws); [exact Hc'|].
    rewrite Hwlen. apply Z.mod_pos_bound. exact Hpos.
Qed.

(** The list comprehension of [resample]: [n] draws, each one of the values
    under [f]. *)
Lemma resample_draws (self : ref) vs ws (f : V -> V) :
  vs <> [] ->
  forall n a (s : st),
  collection s self vs ws ->
  exists values,
    comprehension (seq a n)
      (fun _ => do v <- Empirical.sample self None None; ret (f v)) s =
      (Ret values, set_draws (n + draws s) s) /\
    length values = n /\
    Forall (fun x => exists v, v ∈ vs /\ x = f v) values.
Proof.
  intros Hne. induction n as [|n IH]; intros a s Hc.
  - exists []. cbn. destruct s. split; [reflexivity|]. split; [reflexivity|constructor].
  - destruct (sample_of_collection s self vs ws Hc Hne) as (v & Hs & Hv).
    destruct (IH (S a) _ (collection_draws s self vs ws (S (draws s)) Hc))
      as (values & Hrest & Hlen & Hall).
    exists (f v :: values). cbn [seq comprehension].
    rewrite (bind_ret _ _ _ _ _ (bind_ret _ _ _ _ _ Hs)).
    unfold ret at 1.
    rewrite (bind_ret _ _ _ _ _ Hrest). unfold ret. cbn.
    split; [|split; [now rewrite Hlen|constructor; [now exists v|exact Hall]]].
    f_equal. unfold set_draws. cbn. f_equal. lia.
Qed.

Lemma zeros_equal n :
  forallb (fun w => torch_eq w tensor_zero) (replicate n tensor_zero) = true.
Proof.
  induction n as [|n IH]; [reflexivity|].
  cbn [replicate forallb]. rewrite IH. reflexivity.
Qed.

Lemma zeros_are_uniform n :
  forallb (fun w => torch_eq w (List.hd tensor_zero (replicate n tensor_zero)))
    (replicate n tensor_zero) = true.
Proof.
  destruct n as [|n]; [reflexivity|]. exact (zeros_equal (S n)).
Qed.

(** Claim C4, as amended: on a finalized collection that is not empty,
    [resample(n, map_func)] returns a new in-memory collection of exactly
    [n] values, each one a value of the source under [map_func], with [n]
    log-weights that are all zero, whatever the log-weights of the source,
    and leaves the source as it was.  For [n >= 1] the new collection is
    finalized and its weights are flagged uniform; for [n = 0] it is empty,
    not finalized and not flagged uniform. *)
Theorem resample_is_uniform (s : st) self vs ws n (map_func : option (V -> V)) :
  collection s self vs ws ->
  vs <> [] ->
  exists s' e' l values,
    Empirical.resample self n map_func s = (Ret (length (objects s)), s') /\
    objects s' !! length (objects s) = Some e' /\
    _on_disk e' = false /\
    _values e' = Some l /\
    value_lists s' !! l = Some values /\
    length values = n /\
    Forall (fun x => exists v, v ∈ vs /\ x = default (fun y => y) map_func v) values /\
    weight_lists s' !! _log_weights e' = Some (replicate n tensor_zero) /\
    _finalized e' = (0 <? n)%nat /\
    _uniform_weights e' = (0 <? n)%nat /\
    collection s' self vs ws /\
    ((0 < n)%nat ->
     collection s' (length (objects s)) values (replicate n tensor_zero)).
Proof.
  intros Hc Hne.
  destruct (resample_draws self vs ws (default (fun y => y) map_func) Hne n 0%nat s Hc)
    as (values & Hdraw & Hlen & Hall).
  assert (Hc1 := collection_draws s self vs ws (n + draws s) Hc).
  destruct Hc as (e & He & Hf & _).
  unfold Empirical.resample.
  rewrite (bind_ret _ _ _ _ _ (check_finalized_passes s self e He Hf)).
  cbn zeta. unfold range.
  rewrite (bind_ret _ _ _ _ _ Hdraw).
  set (s1 := set_draws (n + draws s) s) in *.
  change (length (objects s)) with (length (objects s1)).
  destruct values as [|x xs].
  - cbn in Hlen. subst n.
    rewrite init_in_memory_empty.
    eexists _, _, (length (value_lists s1)), []. split; [reflexivity|]. cbn.
    split; [apply lookup_snoc_new|]. do 2 (split; [reflexivity|]).
    split; [apply lookup_snoc_new|]. split; [reflexivity|]. split; [constructor|].
    split; [apply lookup_snoc_new|]. do 2 (split; [reflexivity|]).
    split; [|lia].
    eapply collection_extend; [exact Hc1| | | |]; reflexivity.
  - destruct (init_in_memory_collection s1 (x :: xs) None None
                Empirical.default_timeout Empirical.default_name)
      as (s' & Hinit & Ho & Hv & Hw & Hd & _ & Hnew).
    { discriminate. }
    { cbn [batch_weights]. now rewrite length_replicate. }
    cbn [batch_weights] in *. rewrite Hlen in *.
    assert (Hn : (0 <? n)%nat = true) by (apply Nat.ltb_lt; cbn in Hlen; lia).
    exists s', (finalized_of (replicate n tensor_zero)
                 (new_in_memory s1 Empirical.default_name)),
      (length (value_lists s1)), (x :: xs).
    split; [exact Hinit|]. rewrite Ho, Hv, Hw, Hn.
    split; [apply lookup_snoc_new|]. do 2 (split; [reflexivity|]).
    split; [apply lookup_snoc_new|]. split; [exact Hlen|]. split; [exact Hall|].
    split; [apply lookup_snoc_new|]. split; [reflexivity|].
    split; [apply zeros_are_uniform|].
    split; [|intros _; exact Hnew].
    eapply collection_extend; [exact Hc1|exact Ho|exact Hv|exact Hw|exact Hd].
Qed.

Lemma counted_fields (e : Emp) :
  _on_disk (counted e) = _on_disk e /\
  _shelf (counted e) = _shelf e /\
  _log_weights (counted e) = _log_weights e /\
  _file_last_key (counted e) = _file_last_key e + 1.
Proof. destruct e. repeat split. Qed.

Lemma auto_finalized_fields ws (e : Emp) :
  _on_disk (auto_finalized ws e) = _on_disk e /\
  _shelf (auto_finalized ws e) = _shelf e /\
  _log_weights (auto_finalized ws e) = _log_weights e /\
  _file_last_key (auto_finalized ws e) = _file_last_key e + 1.
Proof. destruct e. repeat split. Qed.

Lemma only_filled_refl (s : st) self lwr : only_filled s s self lwr.
Proof. repeat split; auto. Qed.

Lemma only_filled_trans (s1 s2 s3 : st) self lwr :
  only_filled s1 s2 self lwr -> only_filled s2 s3 self lwr ->
  only_filled s1 s3 self lwr.
Proof.
  intros (A1 & A2 & A3 & A4 & A5 & A6) (B1 & B2 & B3 & B4 & B5 & B6).
  repeat split; try congruence.
  - intros r Hr. rewrite B2, A2; auto.
  - intros l Hl. rewrite B5, A5; auto.
Qed.

(** One [add] on a persistent instance that is being filled, wherever the
    countdown stands. *)
Lemma add_filling (s : st) self h lwr vs ws v lw w :
  filling s self h lwr vs ws ->
  exists s',
    Empirical.add self v lw w s = (Ret tt, s') /\
    filling s' self h lwr (vs ++ [v]) (ws ++ [weight_arg lw w]) /\
    only_filled s s' self lwr.
Proof.
  intros (e & db & He & Hd & Hh & Hopen & Hl & Hdb & Hws & Hkey & Hlen & Hitems).
  assert (Hself : (self < length (objects s))%nat) by (eapply lookup_lt_Some; eauto).
  assert (Hlw : (lwr < length (weight_lists s))%nat) by (eapply lookup_lt_Some; eauto).
  assert (Hstored : forall (db' : shelf_db) i x,
            db_items db' = <[_file_last_key e + 1 := v]> (db_items db) ->
            (vs ++ [v]) !! i = Some x -> db_items db' !! Z.of_nat i = Some x).
  { intros db' i x -> Hi. apply lookup_app_Some in Hi as [Hi|[Hge Hi]].
    - rewrite lookup_insert_ne; [now apply Hitems|].
      apply lookup_lt_Some in Hi. lia.
    - apply list_lookup_singleton_Some in Hi as [Hi <-].
      replace (Z.of_nat i) with (_file_last_key e + 1) by lia.
      apply lookup_insert_eq. }
  destruct (Z.eq_dec (_file_sync_countdown e - 1) 0) as [Hz|Hnz].
  - eexists. split.
    { subst lwr. now apply (add_on_disk_sync s self e h db ws). }
    destruct (auto_finalized_fields (ws ++ [weight_arg lw w]) e) as (F1 & F2 & F3 & F4).
    split.
    + eexists _, _. cbn.
      split; [now apply list_lookup_insert_eq|].
      rewrite F1, F2, F3, F4.
      do 4 (split; [assumption|]).
      split; [apply lookup_insert_eq|].
      split; [subst lwr; now apply list_lookup_insert_eq|].
      split; [rewrite length_app; cbn; lia|].
      split; [rewrite !length_app; cbn; lia|].
      intros i x. apply Hstored. reflexivity.
    + unfold only_filled. cbn [objects value_lists weight_lists draws].
      split; [now rewrite length_insert|].
      split; [intros r Hr; now apply list_lookup_insert_ne|].
      split; [reflexivity|].
      split; [now rewrite length_insert|].
      split; [|reflexivity].
      intros l Hne. subst lwr. now apply list_lookup_insert_ne.
  - eexists. split.
    { now apply (add_on_disk_quiet s self e h db). }
    destruct (counted_fields e) as (F1 & F2 & F3 & F4).
    split.
    + eexists _, _. cbn.
      split; [now apply list_lookup_insert_eq|].
      rewrite F1, F2, F3, F4.
      do 4 (split; [assumption|]).
      split; [apply lookup_insert_eq|].
      split; [subst lwr; rewrite list_lookup_alter_eq, Hws; reflexivity|].
      split; [rewrite length_app; cbn; lia|].
      split; [rewrite !length_app; cbn; lia|].
      intros i x. apply Hstored. reflexivity.
    + unfold only_filled. cbn [objects value_lists weight_lists draws].
      split; [now rewrite length_insert|].
      split; [intros r Hr; now apply list_lookup_insert_ne|].
      split; [reflexivity|].
      split; [now rewrite length_alter|].
      split; [|reflexivity].
      intros l Hne. subst lwr. now apply list_lookup_alter_ne.
Qed.

Lemma fill_all (self : ref) h lwr items :
  forall (s : st) vs ws,
  filling s self h lwr vs ws ->
  exists s',
    for_each items (add_item self) s = (Ret tt, s') /\
    filling s' self h lwr (vs ++ items.*1) (ws ++ items.*2) /\
    only_filled s s' self lwr.
Proof.
  induction items as [|[v lw] items IH]; intros s vs ws Hf.
  - exists s. cbn. rewrite !app_nil_r.
    split; [reflexivity|]. split; [exact Hf|apply only_filled_refl].
  - destruct (add_filling s self h lwr vs ws v (Some lw) None Hf)
      as (s1 & Hadd & Hf1 & Ho1).
    destruct (IH s1 _ _ Hf1) as (s2 & Hrest & Hf2 & Ho2).
    exists s2. cbn [for_each]. unfold add_item at 1. cbn [fst snd].
    rewrite (bind_ret _ _ _ _ _ Hadd).
    split; [exact Hrest|].
    split; [|eapply only_filled_trans; eassumption].
    cbn [fmap list_fmap fst snd]. cbn [weight_arg] in Hf2.
    now rewrite <- !app_assoc in Hf2.
Qed.

Lemma finalized_of_fields ws (e : Emp) :
  _finalized (finalized_of ws e) = true /\
  _length (finalized_of ws e) = length ws /\
  _categorical (finalized_of ws e) = Some (mkCategorical ws) /\
  _on_disk (finalized_of ws e) = _on_disk e /\
  _shelf (finalized_of ws e) = _shelf e /\
  _log_weights (finalized_of ws e) = _log_weights e /\
  _values (finalized_of ws e) = _values e.
Proof. destruct e. repeat split. Qed.

(** [finalize] at the end of the filling: a persistent collection. *)
Lemma finalize_filling (s : st) self h lwr vs ws :
  filling s self h lwr vs ws ->
  ws <> [] ->
  exists s',
    Empirical.finalize self s = (Ret tt, s') /\
    collection s' self vs ws /\
    mode_of s' self = Some true /\
    only_filled s s' self lwr.
Proof.
  intros (e & db & He & Hd & Hh & Hopen & Hl & Hdb & Hws & Hkey & Hlen & Hitems) Hne.
  assert (Hself : (self < length (objects s))%nat) by (eapply lookup_lt_Some; eauto).
  subst lwr.
  eexists. split; [now apply (finalize_on_disk s self e ws h db)|].
  destruct (finalized_of_fields ws e) as (F1 & F2 & F3 & F4 & F5 & F6 & F7).
  split; [|split].
  - exists (finalized_of ws e). cbn [objects weight_lists disk].
    split; [now apply list_lookup_insert_eq|].
    rewrite F1, F2, F3, F4, F5, F6, Hd.
    do 4 (split; [auto|]). split; [exact Hws|].
    exists h, (synced_db e ws db).
    split; [exact Hh|]. split; [exact Hopen|].
    split; [apply lookup_insert_eq|]. exact Hitems.
  - unfold mode_of. cbn [objects].
    rewrite list_lookup_insert_eq by exact Hself.
    cbn [fmap option_fmap option_map]. now rewrite F4, Hd.
  - unfold only_filled. cbn [objects value_lists weight_lists draws].
    split; [now rewrite length_insert|].
    split; [intros r Hr; now apply list_lookup_insert_ne|].
    repeat split.
Qed.

Lemma preserved_refl (s : st) : preserved s s.
Proof. repeat split; auto. Qed.

Lemma preserved_trans (s1 s2 s3 : st) :
  preserved s1 s2 -> preserved s2 s3 -> preserved s1 s3.
Proof. intros (A1 & A2 & A3) (B1 & B2 & B3). repeat split; auto. Qed.

(** An in-memory collection stays what it is while the instances and lists
    that exist are left alone. *)
Lemma collection_preserved (s s' : st) self vs ws :
  collection s self vs ws ->
  mode_of s self = Some false ->
  preserved s s' ->
  collection s' self vs ws /\ mode_of s' self = Some false.
Proof.
  intros (e & He & Hf & Hlen & Hw & Hcat & Hws & Hstore) Hm (P1 & P2 & P3).
  unfold mode_of in Hm. rewrite He in Hm. injection Hm as Hm.
  split.
  - exists e. split; [now apply P1|]. do 4 (split; [assumption|]).
    split; [now apply P3|].
    rewrite Hm in *. destruct Hstore as (l & Hl & Hvs).
    exists l. split; [exact Hl|now apply P2].
  - unfold mode_of. rewrite (P1 _ _ He). cbn. now rewrite Hm.
Qed.

(** Filling an instance and a list that were allocated after [s] leaves
    what exists in [s] alone. *)
Lemma only_filled_preserved (s s1 s2 : st) self lwr :
  preserved s s1 ->
  (length (objects s) <= self)%nat ->
  (length (weight_lists s) <= lwr)%nat ->
  only_filled s1 s2 self lwr ->
  preserved s s2.
Proof.
  intros (P1 & P2 & P3) Hs Hl (_ & O2 & O3 & _ & O5 & _).
  split; [|split].
  - intros r e Hr. rewrite O2; [now apply P1|].
    apply lookup_lt_Some in Hr. lia.
  - intros l vs Hvs. rewrite O3. now apply P2.
  - intros l ws Hws. rewrite O5; [now apply P3|].
    apply lookup_lt_Some in Hws. lia.
Qed.

Lemma comprehension_lookup {A} (f : nat -> M st A) (s : st) (xs : list A) :
  forall a,
  (forall i x, xs !! i = Some x -> f (a + i)%nat s = (Ret x, s)) ->
  comprehension (seq a (length xs)) f s = (Ret xs, s).
Proof.
  induction xs as [|x xs IH]; intros a Hf; [reflexivity|].
  cbn [length seq comprehension].
  assert (H0 := Hf 0%nat x eq_refl). rewrite Nat.add_0_r in H0.
  rewrite (bind_ret _ _ _ _ _ H0).
  rewrite (bind_ret _ _ _ _ _ (IH (S a) (fun i y Hy =>
             eq_trans (f_equal (fun n => f n s) (Nat.add_succ_comm a i))
                      (Hf (S i) y Hy)))).
  reflexivity.
Qed.

(** [get_values()] on a collection, in either mode. *)
Lemma get_values_of_collection (s : st) self vs ws :
  collection s self vs ws ->
  Empirical.get_values self s = (Ret vs, s).
Proof.
  intros (e & He & Hf & Hlen & Hw & Hcat & Hws & Hstore).
  unfold Empirical.get_values.
  rewrite (bind_ret _ _ _ _ _ (check_finalized_passes s self e He Hf)).
  unfold get_self at 1. unfold bind at 1. rewrite He.
  destruct (_on_disk e).
  - destruct Hstore as (h & db & Hh & Hopen & Hdb & Hitems).
    unfold shelf_attr. rewrite Hh. unfold bind at 1, ret at 1.
    rewrite Hlen. unfold range. apply comprehension_lookup.
    intros i x Hx. cbn [Nat.add].
    unfold shelf_get_item, shelf_db_of, bind. rewrite Hopen, Hdb.
    now rewrite (Hitems i x Hx).
  - destruct Hstore as (l & Hl & Hvs).
    unfold values_attr. rewrite Hl. unfold bind at 1, ret at 1.
    unfold read_value_list. now rewrite Hvs.
Qed.

Lemma get_log_weights_of_collection (s : st) self vs ws :
  collection s self vs ws ->
  get_log_weights self s = (Ret ws, s).
Proof.
  intros (e & He & _ & _ & _ & _ & Hws & _).
  unfold get_log_weights, get_self, bind, read_weight_list. now rewrite He, Hws.
Qed.

(** [Empirical(values, log_weights, file_name=f)] when there is no file
    [f] yet: a persistent collection of these values and log-weights. *)
Lemma init_on_disk_fresh (s : st) vs ws f t nm :
  disk s !! f = None ->
  vs <> [] ->
  length ws = length vs ->
  exists s',
    Empirical.__init__ (Some vs) (Some ws) None (Some f) t nm s =
      (Ret (length (objects s)), s') /\
    collection s' (length (objects s)) vs ws /\
    mode_of s' (length (objects s)) = Some true /\
    preserved s s'.
Proof.
  intros Hfresh Hne Hlen.
  set (h := mkShelf f false).
  set (e0 := mkEmpirical false false None (length (weight_lists s)) 0 true None
               (Some f) (Some h) (-1) t t None None None None None None false nm
             : Emp).
  set (s0 := mkStore (objects s ++ [e0]) (value_lists s) (weight_lists s ++ [[]])
               (<[f := empty_db]> (disk s)) (draws s)).
  assert (Hinit : Empirical.__init__ (Some vs) (Some ws) None (Some f) t nm s =
                  Empirical.init_batch (length (objects s)) (Some vs) (Some ws) None s0).
  { unfold Empirical.__init__, new_weight_list, shelve_open, shelf_db_of,
      new_object, bind.
    cbn. rewrite Hfresh. cbn. rewrite lookup_insert_eq. reflexivity. }
  assert (Hpos : (0 <? length vs)%nat = true).
  { apply Nat.ltb_lt. destruct vs; [congruence|cbn; lia]. }
  assert (Hf0 : filling s0 (length (objects s)) h (length (weight_lists s)) [] []).
  { exists e0, empty_db. cbn [objects weight_lists disk s0].
    split; [apply lookup_snoc_new|]. do 4 (split; [reflexivity|]).
    split; [apply lookup_insert_eq|]. split; [apply lookup_snoc_new|].
    split; [reflexivity|]. split; [reflexivity|]. intros i v Hi. discriminate. }
  destruct (fill_all (length (objects s)) h (length (weight_lists s)) (zip vs ws)
              s0 [] [] Hf0) as (s1 & Hfill & Hf1 & Ho1).
  cbn [app] in Hf1. rewrite fst_zip, snd_zip in Hf1 by lia.
  assert (Hwne : ws <> []).
  { intros ->. destruct vs; [congruence|discriminate]. }
  destruct (finalize_filling s1 _ _ _ vs ws Hf1 Hwne) as (s2 & Hfin & Hc & Hm & Ho2).
  exists s2. split.
  - rewrite Hinit. unfold Empirical.init_batch.
    rewrite Hpos.
    rewrite (bind_ret _ _ _ _ _
               (eq_trans (add_sequence_items _ vs (Some ws) None s0 Hlen) Hfill)).
    now rewrite (bind_ret _ _ _ _ _ Hfin).
  - split; [exact Hc|]. split; [exact Hm|].
    assert (P0 : preserved s s0).
    { split; [|split]; cbn [objects value_lists weight_lists s0].
      - intros r e Hr. now apply lookup_app_l_Some.
      - auto.
      - intros l x Hl. now apply lookup_app_l_Some. }
    apply (only_filled_preserved s s1 s2 (length (objects s)) (length (weight_lists s)));
      [|lia|lia|exact Ho2].
    apply (only_filled_preserved s s0 s1 (length (objects s)) (length (weight_lists s)));
      [exact P0|lia|lia|exact Ho1].
Qed.

(** Claim C1, as amended: a finalized in-memory collection that is not
    empty is copied to a file that does not exist yet, and the persistent
    copy is copied back to memory.  The result is a new in-memory
    collection with the values and the log-weights of the original, in
    their order; the persistent copy holds them too, and the original is
    left as it was. *)
Theorem round_trip_keeps_values (s : st) self vs ws f :
  collection s self vs ws ->
  mode_of s self = Some false ->
  vs <> [] ->
  disk s !! f = None ->
  exists p s1 r s2,
    Empirical.copy self (Some f) s = (Ret p, s1) /\
    mode_of s1 p = Some true /\
    collection s1 p vs ws /\
    Empirical.copy p None s1 = (Ret r, s2) /\
    mode_of s2 r = Some false /\
    r <> self /\
    collection s2 r vs ws /\
    collection s2 self vs ws /\
    Empirical.get_values r s2 = Empirical.get_values self s2 /\
    get_log_weights r s2 = get_log_weights self s2 /\
    Empirical.get_values r s2 = (Ret vs, s2) /\
    get_log_weights r s2 = (Ret ws, s2).
Proof.
  intros Hc Hm Hne Hfresh.
  assert (Hc0 := Hc).
  destruct Hc0 as (e & He & Hf & Hlen & Hwlen & Hcat & Hws & Hstore).
  assert (Hd : _on_disk e = false).
  { unfold mode_of in Hm. rewrite He in Hm. now injection Hm. }
  rewrite Hd in Hstore. destruct Hstore as (l & Hl & Hvs).
  destruct (init_on_disk_fresh s vs ws f Empirical.default_timeout
              Empirical.default_name Hfresh Hne Hwlen)
    as (s1 & Hinit1 & Hcp & Hmp & Hpres).
  destruct (collection_preserved s s1 self vs ws Hc Hm Hpres) as (Hc1 & Hm1).
  destruct (init_in_memory_collection s1 vs (Some ws) None
              Empirical.default_timeout Empirical.default_name Hne Hwlen)
    as (s2 & Hinit2 & Ho2 & Hv2 & Hw2 & Hd2 & _ & Hcr).
  cbn [batch_weights] in *.
  assert (Hself : (self < length (objects s1))%nat).
  { destruct Hc1 as (e1 & He1 & _). eapply lookup_lt_Some; eauto. }
  assert (Hc2 : collection s2 self vs ws).
  { eapply collection_extend; [exact Hc1|exact Ho2|exact Hv2|exact Hw2|exact Hd2]. }
  exists (length (objects s)), s1, (length (objects s1)), s2.
  split.
  { unfold Empirical.copy.
    rewrite (bind_ret _ _ _ _ _ (check_finalized_passes s self e He Hf)).
    unfold get_self at 1. unfold bind at 1. rewrite He, Hd.
    unfold values_attr. rewrite Hl. unfold bind at 1, ret at 1.
    unfold read_value_list at 1. unfold bind at 1. rewrite Hvs.
    unfold read_weight_list at 1. unfold bind at 1. rewrite Hws.
    exact Hinit1. }
  split; [exact Hmp|]. split; [exact Hcp|].
  split.
  { assert (Hgv := get_values_of_collection s1 _ vs ws Hcp).
    destruct Hcp as (ep & Hep & Hfp & _ & _ & _ & Hwsp & _).
    assert (Hdp : _on_disk ep = true).
    { unfold mode_of in Hmp. rewrite Hep in Hmp. now injection Hmp. }
    unfold Empirical.copy.
    rewrite (bind_ret _ _ _ _ _ (check_finalized_passes s1 _ ep Hep Hfp)).
    unfold get_self at 1. unfold bind at 1. rewrite Hep, Hdp.
    rewrite (bind_ret _ _ _ _ _ Hgv).
    unfold read_weight_list at 1. unfold bind at 1. rewrite Hwsp.
    exact Hinit2. }
  split.
  { unfold mode_of. rewrite Ho2, lookup_snoc_new.
    cbn [fmap option_fmap option_map].
    now rewrite (proj1 (proj2 (proj2 (proj2 (finalized_of_fields ws _))))). }
  split; [lia|]. split; [exact Hcr|]. split; [exact Hc2|].
  rewrite (get_values_of_collection s2 _ vs ws Hcr).
  rewrite (get_values_of_collection s2 _ vs ws Hc2).
  rewrite (get_log_weights_of_collection s2 _ vs ws Hcr).
  rewrite (get_log_weights_of_collection s2 _ vs ws Hc2).
  repeat split.
Qed.

End Facts.

(** * Concrete cases, on collections of integers *)

Import Examples.

(** Claim C2 fails on the code: [close()] runs [finalize()] before it looks
    at [_closed], so a second [close()] writes to the closed shelf and ends
    with the [ValueError] of [shelve].  The first [close()] alone succeeds;
    the file has then seen three syncs (the constructor's [finalize], the
    [finalize] of [close] and the one of [Shelf.close]). *)
Theorem close_twice_raises :
  result close_once = Ret (Some 3%nat) /\
  result close_twice = Raise (ValueError msg_closed_shelf).
Proof. split; vm_compute; reflexivity. Qed.

(** Claim C7 fails on the code: [copy()] of an in-memory collection is
    [copy.copy(self)], which shares the two lists.  After [c = e.copy()],
    [c.add(3)] puts a third value and a third log-weight into [e] (whose
    length stays 2 and which stays finalized), and [e.add(3)] does the same
    to [c]. *)
Theorem copy_shares_the_lists :
  result add_to_copy =
    Ret ([1; 2; 3], [tensor_zero; tensor_zero; tensor_zero], 2%nat, true, true) /\
  result add_to_original =
    Ret ([1; 2; 3], [tensor_zero; tensor_zero; tensor_zero], 2%nat, true, true).
Proof. split; vm_compute; reflexivity. Qed.

(** Claim C8 fails on the code: [combine] reads [dist._on_disk] before it
    tests [isinstance(dist, Empirical)], so an input without that attribute
    ends with [AttributeError], which is none of the error kinds. *)
Theorem combine_with_int_raises_attribute_error :
  result combine_with_int = Raise (AttributeError "_on_disk") /\
  kind_of (AttributeError "_on_disk") = None.
Proof. split; vm_compute; reflexivity. Qed.

(** Claim C1 fails as stated.  A collection named ["posterior"] comes
    back with its values and log-weights under the name ["Empirical"]; and
    a collection of the values [1, 2] that is copied to a file which holds
    the value 7 already comes back with the values [7, 1, 2] and three
    log-weights. *)
Lemma round_trip_differs :
  result round_trip_named = Ret ("posterior", "Empirical", [1; 2], [one; tensor_zero]) /\
  "posterior" <> "Empirical" /\
  result round_trip_existing =
    Ret ([7; 1; 2], [tensor_zero; tensor_zero; tensor_zero]) /\
  [7; 1; 2] <> [1; 2].
Proof.
  split; [vm_compute; reflexivity|]. split; [discriminate|].
  split; [vm_compute; reflexivity|discriminate].
Qed.

(** Claim C3 fails as stated: when no value satisfies the predicate, the
    new collection is empty and not finalized, and its mean cannot be
    read. *)
Lemma filter_nothing_is_not_finalized :
  result (filter_above 5) = Ret ([], [], 0%nat, false, false) /\
  result (filter_above_mean 5) = Raise (RuntimeError msg_not_finalized).
Proof. split; vm_compute; reflexivity. Qed.

(** Claim C4 fails as stated at [n = 0]: the collection returned by
    [resample(0)] is not finalized and its [uniform] flag is false. *)
Lemma resample_zero_is_not_uniform :
  result (resample_count 0) = Ret ([], [], 0%nat, false, false).
Proof. vm_compute; reflexivity. Qed.

(** Claim C6 fails as stated: log-weights +0 and -0 are not identical, and
    the collection is flagged uniform. *)
Lemma signed_zeros_are_uniform :
  result signed_zeros =
    Ret ([1; 2], [S754_zero false; S754_zero true], 2%nat, true, true) /\
  S754_zero false <> S754_zero true.
Proof. split; [vm_compute; reflexivity | discriminate]. Qed.

(** Claim C9 fails as stated: on the empty collection [Empirical()] the
    mean ends with the error of a collection that is not finalized, and the
    minimum with the error for values that are not scalars.  Neither is an
    EmptyDistribution error. *)
Lemma empty_statistics_error_kinds :
  (kind_of <$> raised (result (do e <- empty_collection; Empirical.mean e)))
    = Some (Some NotFinalized) /\
  (kind_of <$> raised (result (do e <- empty_collection; Empirical.min e)))
    = Some (Some NotScalar) /\
  Some NotFinalized <> Some EmptyDistribution /\
  Some NotScalar <> Some EmptyDistribution.
Proof. repeat split; try (vm_compute; reflexivity); discriminate. Qed.

(** Claim C5: each [add] on a persistent collection counts the countdown
    down by one; exactly when it reaches zero, [finalize] runs (one more
    sync of the file, the log-weights written) and the countdown is set back
    to [file_sync_timeout]; otherwise nothing is synced.  With a timeout of
    2, three [add] calls on a new collection leave the file with 0, 1 and 1
    syncs: one automatic sync, after the second call. *)
Theorem sync_countdown :
  (forall V (N : Numerics V) (s : @store V) self e h db ws v lw w,
     objects s !! self = Some e ->
     _on_disk e = true ->
     _shelf e = Some h ->
     shelf_closed h = false ->
     disk s !! shelf_file h = Some db ->
     weight_lists s !! _log_weights e = Some ws ->
     exists s' e' db',
       Empirical.add self v lw w s = (Ret tt, s') /\
       objects s' !! self = Some e' /\
       disk s' !! shelf_file h = Some db' /\
       _file_sync_timeout e' = _file_sync_timeout e /\
       if _file_sync_countdown e - 1 =? 0 then
         _finalized e' = true /\
         _file_sync_countdown e' = _file_sync_timeout e /\
         db_syncs db' = S (db_syncs db) /\
         db_log_weights db' = Some (ws ++ [weight_arg lw w])
       else
         _finalized e' = false /\
         _file_sync_countdown e' = _file_sync_countdown e - 1 /\
         db_syncs db' = db_syncs db) /\
  result three_adds = Ret (Some 0%nat, Some 1%nat, Some 1%nat).
Proof.
  split.
  - intros. eapply add_countdown_step; eassumption.
  - vm_compute. reflexivity.
Qed.

Lemma sync_countdown_witness :
  let s := store_after persistent_pair in
  let e := instance_at s 0 in
  let h := mkShelf sample_file false in
  let db := file_at s sample_file in
  exists s' e' db',
    Empirical.add 0%nat 3 None None s = (Ret tt, s') /\
    objects s' !! 0%nat = Some e' /\
    disk s' !! shelf_file h = Some db' /\
    _file_sync_timeout e' = _file_sync_timeout e /\
    if _file_sync_countdown e - 1 =? 0 then
      _finalized e' = true /\
      _file_sync_countdown e' = _file_sync_timeout e /\
      db_syncs db' = S (db_syncs db) /\
      db_log_weights db' = Some ([tensor_zero; tensor_zero] ++ [weight_arg None None])
    else
      _finalized e' = false /\
      _file_sync_countdown e' = _file_sync_countdown e - 1 /\
      db_syncs db' = db_syncs db.
Proof.
  intros s e h db.
  apply (proj1 sync_countdown Z integers s 0%nat e h db [tensor_zero; tensor_zero]);
    vm_compute; reflexivity.
Defined.

Lemma uniform_iff_all_ieee_equal_witness :
  let s := store_after one_two_three in
  let e := instance_at s 0 in
  let ws := [tensor_zero; tensor_zero; tensor_zero] in
  exists s' e',
    Empirical.finalize 0%nat s = (Ret tt, s') /\
    objects s' !! 0%nat = Some e' /\
    _finalized e' = true /\
    weight_lists s' !! _log_weights e' = Some ws /\
    (_uniform_weights e' = true <->
     forall a b, a ∈ ws -> b ∈ ws -> torch_eq a b = true) /\
    (Forall (fun w => is_zero w = false /\ is_nan w = false) ws ->
     (_uniform_weights e' = true <-> forall a b, a ∈ ws -> b ∈ ws -> a = b)).
Proof.
  intros s e ws.
  apply (uniform_iff_all_ieee_equal (V:=Z) s 0%nat e ws).
  - vm_compute. reflexivity.
  - vm_compute. reflexivity.
  - discriminate.
  - exists 0%nat, [1; 2; 3]. split; vm_compute; reflexivity.
Defined.

Lemma length_is_as_of_last_finalize_witness :
  let s := store_after one_two_three in
  let e := instance_at s 0 in
  let ws := [tensor_zero; tensor_zero; tensor_zero] in
  exists s1 e1 s2 e2,
    Empirical.finalize 0%nat s = (Ret tt, s1) /\
    objects s1 !! 0%nat = Some e1 /\
    Empirical.__len__ 0%nat s1 = (Ret (length ws), s1) /\
    Empirical.add 0%nat 4 None None s1 = (Ret tt, s2) /\
    objects s2 !! 0%nat = Some e2 /\
    Empirical.__len__ 0%nat s2 = (Ret (length ws), s2) /\
    weight_lists s2 !! _log_weights e2 = Some (ws ++ [weight_arg None None]) /\
    value_stored s1 s2 e1 e2 4.
Proof.
  intros s e ws.
  apply (length_is_as_of_last_finalize (V:=Z) s 0%nat e ws 4 None None).
  - vm_compute. reflexivity.
  - vm_compute. reflexivity.
  - discriminate.
  - exists 0%nat, [1; 2; 3]. split; vm_compute; reflexivity.
  - vm_compute. reflexivity.
Defined.

Lemma statistics_of_zero_length_witness :
  let s := run empty_store mean_then_filter_out in
  unread (instance_at s 1) /\
  Empirical.mean 1%nat s = (Raise (RuntimeError msg_not_finalized), s) /\
  Empirical.variance 1%nat s = (Raise (RuntimeError msg_not_finalized), s) /\
  Empirical.mode 1%nat s = (Raise (RuntimeError msg_not_finalized), s) /\
  Empirical.effective_sample_size 1%nat s = (Raise (RuntimeError msg_not_finalized), s) /\
  Empirical.min 1%nat s = (Raise (RuntimeError msg_min_max), s) /\
  Empirical.max 1%nat s = (Raise (RuntimeError msg_min_max), s) /\
  kind_of (RuntimeError msg_not_finalized) = Some NotFinalized /\
  kind_of (RuntimeError msg_min_max) = Some NotScalar.
Proof.
  intros s.
  refine (statistics_of_zero_length (V:=Z) empty_store mean_then_filter_out
            1%nat (instance_at s 1) eq_refl _ _);
    vm_compute; reflexivity.
Defined.

Lemma existsb_as_forallb {A} (f : A -> bool) (l : list A) :
  negb (forallb (fun x => negb (f x)) l) = existsb f l.
Proof.
  induction l as [|x l IH]; [reflexivity|].
  cbn. destruct (f x); cbn; [reflexivity|exact IH].
Qed.

(** Claim C3, as amended: on a finalized collection, [filter] returns the
    collection itself when it is empty; otherwise it returns a new in-memory
    collection holding exactly the values that satisfy the predicate, in
    their order, each with the log-weight of its position, not
    renormalized, and leaves the source as it was.  The new collection is
    finalized if and only if some value satisfies the predicate: an empty
    result is left unfinalized.  Filtering [1,2,3] with weights [1,1,1] by
    [v > 1] gives length 2, values [2,3], log-weights zero and mean 5/2. *)
Theorem filter_keeps_matching :
  (forall V (N : Numerics V) (s : @store V) self vs ws func,
     collection s self vs ws ->
     (vs = [] -> Empirical.filter self func s = (Ret self, s)) /\
     (vs <> [] ->
      exists s' e' l,
        Empirical.filter self func s = (Ret (length (objects s)), s') /\
        objects s' !! length (objects s) = Some e' /\
        _on_disk e' = false /\
        _values e' = Some l /\
        value_lists s' !! l = Some (List.filter func vs) /\
        weight_lists s' !! _log_weights e' = Some (kept_pairs func vs ws).*2 /\
        _finalized e' = existsb func vs /\
        collection s' self vs ws /\
        (List.filter func vs <> [] ->
         collection s' (length (objects s)) (List.filter func vs)
           (kept_pairs func vs ws).*2))) /\
  result (filter_above 1) = Ret ([2; 3], [tensor_zero; tensor_zero], 2%nat, true, true) /\
  result (filter_above_mean 1) = Ret (5 # 2)%Q.
Proof.
  split; [|split; vm_compute; reflexivity].
  intros V N s self vs ws func Hc. split.
  - intros ->. destruct Hc as (e & He & Hf & Hlen & _).
    now apply (filter_of_empty s self e).
  - intros Hne.
    destruct (filter_result s self vs ws func Hc Hne)
      as (s' & e' & l & H1 & H2 & H3 & H4 & H5 & H6 & H7 & H8 & H9).
    exists s', e', l. rewrite <- existsb_as_forallb. auto 10.
Qed.

Lemma filter_keeps_matching_witness :
  let s := store_after one_two_three in
  let vs := [1; 2; 3] in
  let ws := [tensor_zero; tensor_zero; tensor_zero] in
  let func := fun v => 1 <? v in
  exists s' e' l,
    Empirical.filter 0%nat func s = (Ret (length (objects s)), s') /\
    objects s' !! length (objects s) = Some e' /\
    _on_disk e' = false /\
    _values e' = Some l /\
    value_lists s' !! l = Some (List.filter func vs) /\
    weight_lists s' !! _log_weights e' = Some (kept_pairs func vs ws).*2 /\
    _finalized e' = existsb func vs /\
    collection s' 0%nat vs ws /\
    (List.filter func vs <> [] ->
     collection s' (length (objects s)) (List.filter func vs)
       (kept_pairs func vs ws).*2).
Proof.
  intros s vs ws func.
  apply (proj1 filter_keeps_matching Z integers s 0%nat vs ws func).
  - exists (instance_at s 0). vm_compute.
    repeat split; try reflexivity. exists 0%nat. split; reflexivity.
  - discriminate.
Defined.

Lemma resample_is_uniform_witness :
  let s := store_after one_two_three in
  let vs := [1; 2; 3] in
  let ws := [tensor_zero; tensor_zero; tensor_zero] in
  exists s' e' l values,
    Empirical.resample 0%nat 2 None s = (Ret (length (objects s)), s') /\
    objects s' !! length (objects s) = Some e' /\
    _on_disk e' = false /\
    _values e' = Some l /\
    value_lists s' !! l = Some values /\
    length values = 2%nat /\
    Forall (fun x => exists v, v ∈ vs /\ x = default (fun y => y) None v) values /\
    weight_lists s' !! _log_weights e' = Some (replicate 2 tensor_zero) /\
    _finalized e' = (0 <? 2)%nat /\
    _uniform_weights e' = (0 <? 2)%nat /\
    collection s' 0%nat vs ws /\
    ((0 < 2)%nat ->
     collection s' (length (objects s)) values (replicate 2 tensor_zero)).
Proof.
  intros s vs ws.
  apply (resample_is_uniform (V:=Z) s 0%nat vs ws 2%nat None).
  - exists (instance_at s 0). vm_compute.
    repeat split; try reflexivity. exists 0%nat. split; reflexivity.
  - discriminate.
Defined.

Lemma round_trip_keeps_values_witness :
  let s := store_after one_two_three in
  let vs := [1; 2; 3] in
  let ws := [tensor_zero; tensor_zero; tensor_zero] in
  exists p s1 r s2,
    Empirical.copy 0%nat (Some sample_file) s = (Ret p, s1) /\
    mode_of s1 p = Some true /\
    collection s1 p vs ws /\
    Empirical.copy p None s1 = (Ret r, s2) /\
    mode_of s2 r = Some false /\
    r <> 0%nat /\
    collection s2 r vs ws /\
    collection s2 0%nat vs ws /\
    Empirical.get_values r s2 = Empirical.get_values 0%nat s2 /\
    get_log_weights r s2 = get_log_weights 0%nat s2 /\
    Empirical.get_values r s2 = (Ret vs, s2) /\
    get_log_weights r s2 = (Ret ws, s2).
Proof.
  intros s vs ws.
  apply (round_trip_keeps_values (V:=Z) s 0%nat vs ws sample_file).
  - exists (instance_at s 0). vm_compute.
    repeat split; try reflexivity. exists 0%nat. split; reflexivity.
  - vm_compute. reflexivity.
  - discriminate.
  - vm_compute. reflexivity.
Defined.
